(** * Fibonacci strategies: iterative, naive recursive, memoized recursive

    A shallow embedding of the Python functions of
    [fibonacci_iterative.py], [fibonacci_recursive.py],
    [Fibonnaci_function.py] and [Fibonnaci.py], and the properties the
    specification states about them.

    Python integers are unbounded, so indices and terms are [Z].  A call
    either returns a value or raises an exception ([outcome]).  The memo
    dictionary is a [gmap Z Z]; a function that mutates the dictionary it
    was handed returns the dictionary's final contents next to its
    outcome, so that a caller which keeps the same object sees them.

    The recursive functions are given twice.  [fibonacci_recursive_basic]
    and [fibonacci_recursive_memoized] describe them on a stack that
    never runs out; the [_within] versions take the number of frames the
    interpreter can still push and raise [RecursionError] beyond it.  With
    enough frames the two agree ([basic_within_enough],
    [memoized_within_enough]); everything that asserts a result for an
    unbounded n is stated on the [_within] versions.  The scripts are
    likewise run under the interpreter's limit on the digits of an
    integer converted to text. *)

From Equations Require Import Equations.
From stdpp Require Import gmap list pretty.
From Stdlib Require Import ZArith Lia.

Local Open Scope Z_scope.

(** ** Outcomes of a call *)

Inductive exn : Set :=
| ValueError
| KeyError
| RecursionError.

Inductive outcome (A : Type) : Type :=
| Return (a : A)
| Raise (e : exn).
Arguments Return {A} a.
Arguments Raise {A} e.

(** ** Python primitives used by the sources *)

(** [range(lo, hi)]: the integers [lo, lo+1, ..., hi-1]; empty when
    [hi <= lo]. *)
Definition range (lo hi : Z) : list Z := seqZ lo (hi - lo).

(** [memo[k]] as an expression: a missing key raises [KeyError]. *)
Definition dict_getitem (memo : gmap Z Z) (k : Z) : outcome Z :=
  match memo !! k with
  | Some v => Return v
  | None => Raise KeyError
  end.

(** [k in memo]. *)
Definition dict_contains (memo : gmap Z Z) (k : Z) : bool :=
  bool_decide (is_Some (memo !! k)).

(** A [for i in xs:] loop whose body may raise: the first exception
    leaves the loop. *)
Fixpoint for_in {S : Type} (xs : list Z) (body : Z -> S -> outcome S) (s : S)
  : outcome S :=
  match xs with
  | [] => Return s
  | i :: xs' =>
      match body i s with
      | Raise e => Raise e
      | Return s' => for_in xs' body s'
      end
  end.

(** ** fibonacci_iterative.py *)

(** The loop body [result.append(b); a, b = b, a + b] on the loop state
    [(result, a, b)]. *)
Definition append_and_advance (st : list Z * Z * Z) (_ : Z) : list Z * Z * Z :=
  let '(result, a, b) := st in (result ++ [b], b, a + b).

Definition fibonacci_iterative (n : Z) : outcome (list Z) :=
  if Z_lt_dec n 0 then Raise ValueError
  else if Z.eq_dec n 0 then Return []
  else
    let result := [0] in
    if Z.eq_dec n 1 then Return result
    else
      let '(result, _, _) := foldl append_and_advance (result, 0, 1) (range 1 n) in
      Return result.

(** The loop body [a, b = b, a + b]. *)
Definition advance (st : Z * Z) (_ : Z) : Z * Z :=
  let '(a, b) := st in (b, a + b).

Definition get_nth_fibonacci_iterative (n : Z) : outcome Z :=
  if Z_lt_dec n 0 then Raise ValueError
  else if Z.eq_dec n 0 then Return 0
  else if Z.eq_dec n 1 then Return 1
  else
    let '(_, b) := foldl advance (0, 1) (range 2 (n + 1)) in
    Return b.

(** ** Fibonnaci_function.py *)

Definition generate_fibonacci (n : Z) : outcome (list Z) :=
  if Z_le_dec n 0 then Return []
  else
    let seq := [0] in
    if Z.eq_dec n 1 then Return seq
    else
      let '(seq, _, _) := foldl append_and_advance (seq, 0, 1) (range 1 n) in
      Return seq.

(** ** fibonacci_recursive.py *)

Equations? fibonacci_recursive_basic (n : Z) : outcome Z
  by wf (Z.to_nat n) lt :=
fibonacci_recursive_basic n with Z_lt_dec n 0 := {
  | left _ => Raise ValueError
  | right _ with Z.eq_dec n 0 := {
    | left _ => Return 0
    | right _ with Z.eq_dec n 1 := {
      | left _ => Return 1
      | right _ =>
          match fibonacci_recursive_basic (n - 1) with
          | Raise e => Raise e
          | Return x =>
              match fibonacci_recursive_basic (n - 2) with
              | Raise e => Raise e
              | Return y => Return (x + y)
              end
          end } } }.
Proof. all: lia. Qed.

(** [fibonacci_recursive_memoized(n, memo=None)].  The second component
    of the result is the dictionary the call worked on, after the call:
    the caller's own object when one was supplied, the dictionary created
    by [memo = {}] otherwise. *)
Equations? fibonacci_recursive_memoized (n : Z) (memo : option (gmap Z Z))
  : outcome Z * gmap Z Z by wf (Z.to_nat n) lt :=
fibonacci_recursive_memoized n memo with Z_lt_dec n 0 := {
  | left _ => (Raise ValueError, default ∅ memo)
  | right _ with default ∅ memo := {
    | m with dict_contains m n := {
      | true => (dict_getitem m n, m)
      | false with Z.eq_dec n 0 := {
        | left _ => (Return 0, m)
        | right _ with Z.eq_dec n 1 := {
          | left _ => (Return 1, m)
          | right _ =>
              match fibonacci_recursive_memoized (n - 1) (Some m) with
              | (Raise e, m1) => (Raise e, m1)
              | (Return x, m1) =>
                  match fibonacci_recursive_memoized (n - 2) (Some m1) with
                  | (Raise e, m2) => (Raise e, m2)
                  | (Return y, m2) =>
                      let m3 := <[n := x + y]> m2 in
                      (dict_getitem m3 n, m3)
                  end
              end } } } } }.
Proof. all: lia. Qed.

(** The loop body [result.append(fibonacci_recursive_memoized(i))]: the
    call passes no dictionary, so each one starts from a new one. *)
Definition append_memoized (i : Z) (result : list Z) : outcome (list Z) :=
  match fst (fibonacci_recursive_memoized i None) with
  | Raise e => Raise e
  | Return v => Return (result ++ [v])
  end.

Definition fibonacci_sequence_recursive (n : Z) : outcome (list Z) :=
  if Z_lt_dec n 0 then Raise ValueError
  else for_in (range 0 n) append_memoized [].

(** ** The reference definition of the specification

    F(0) = 0, F(1) = 1, F(n) = F(n-1) + F(n-2) for n >= 2. *)
Fixpoint fib_reference (k : nat) : Z :=
  match k with
  | O => 0
  | S k' =>
      match k' with
      | O => 1
      | S k'' => fib_reference k' + fib_reference k''
      end
  end.

Arguments fib_reference : simpl never.

Definition F (n : Z) : Z := fib_reference (Z.to_nat n).

(** The first [n] terms, indices [0 .. n-1] (empty when [n <= 0]). *)
Definition first_terms (n : Z) : list Z := fib_reference <$> seq 0 (Z.to_nat n).

(** A dictionary is consistent when every entry it holds at a valid index
    is the Fibonacci term of that index. *)
Definition consistent (memo : gmap Z Z) : Prop :=
  forall k v, 0 <= k -> memo !! k = Some v -> v = F k.


(** A call that returns normally. *)
Definition returns {A : Type} (o : outcome A) : Prop := exists v, o = Return v.

(** The dictionary holds exactly the terms of the indices [2 .. j]. *)
Definition holds_terms_upto (j : Z) (memo : gmap Z Z) : Prop :=
  forall k, memo !! k = if bool_decide (2 <= k <= j) then Some (F k) else None.

(** ** Text written by the scripts

    The text is the sequence of bytes the [print] calls write to standard
    output (Python encodes it as UTF-8).  What [int(input(...))] yields is
    an argument: [Some n], or [None] when [int] raises [ValueError]. *)

(** The line terminator [print] appends. *)
Definition newline : string := String (Ascii.ascii_of_nat 10) EmptyString.

(** [str(z)] of an integer: its decimal digits, with a leading [-] when
    negative. *)
Definition str (z : Z) : string := pretty z.

(** [sep.join(parts)]. *)
Definition join (sep : string) (parts : list string) : string :=
  String.concat sep parts.

(** [str(l)] of a list of integers, as an f-string renders it. *)
Definition str_list (l : list Z) : string :=
  "[" +:+ join ", " (str <$> l) +:+ "]".

(** [s * k]: [k] copies of [s], none when [k <= 0]. *)
Definition repeat_str (s : string) (k : Z) : string :=
  join "" (replicate (Z.to_nat k) s).

(** *** fibonacci_recursive.py, the interactive block, on an interpreter
    without a recursion limit and without a limit on integer digits *)

Definition recursive_interactive (parsed : option Z) : outcome string :=
  match parsed with
  | None => Return ("Please enter a valid integer." +:+ newline)
  | Some n =>
      if Z_lt_dec n 0 then Return ("Please enter a non-negative integer." +:+ newline)
      else if Z_gt_dec n 35 then
        let out := "⚠️  For n > 35, using memoization to avoid slowness..." +:+ newline in
        match fst (fibonacci_recursive_memoized n None) with
        | Raise ValueError => Return (out +:+ "Please enter a valid integer." +:+ newline)
        | Raise e => Raise e
        | Return result =>
            Return (out +:+ "fibonacci_recursive_memoized(" +:+ str n +:+ ") = "
                    +:+ str result +:+ newline)
        end
      else
        match fibonacci_recursive_basic n with
        | Raise ValueError => Return ("Please enter a valid integer." +:+ newline)
        | Raise e => Raise e
        | Return result_basic =>
            match fst (fibonacci_recursive_memoized n None) with
            | Raise ValueError => Return ("Please enter a valid integer." +:+ newline)
            | Raise e => Raise e
            | Return result_memo =>
                Return ("fibonacci_recursive_basic(" +:+ str n +:+ ") = "
                        +:+ str result_basic +:+ newline
                        +:+ "fibonacci_recursive_memoized(" +:+ str n +:+ ") = "
                        +:+ str result_memo +:+ newline)
            end
        end
  end.

(** *** fibonacci_recursive.py, [print_tree] of [demonstrate_recursive_basic]

    The lines written, in order. *)
Equations? print_tree (n depth : Z) : list string by wf (Z.to_nat (3 - depth)) lt :=
print_tree n depth with repeat_str "  " depth := {
  | indent with Z.eq_dec n 0 := {
    | left _ => [indent +:+ "fib(" +:+ str n +:+ ") = 0 [BASE CASE]"]
    | right _ with Z.eq_dec n 1 := {
      | left _ => [indent +:+ "fib(" +:+ str n +:+ ") = 1 [BASE CASE]"]
      | right _ with Z_lt_dec depth 3 := {
        | left _ =>
            [indent +:+ "fib(" +:+ str n +:+ ")";
             indent +:+ "├─ fib(" +:+ str (n - 1) +:+ ")";
             indent +:+ "└─ fib(" +:+ str (n - 2) +:+ ")"]
            ++ print_tree (n - 1) (depth + 1)
            ++ print_tree (n - 2) (depth + 1)
        | right _ =>
            [indent +:+ "fib(" +:+ str n +:+ ")";
             indent +:+ "├─ fib(" +:+ str (n - 1) +:+ ")";
             indent +:+ "└─ fib(" +:+ str (n - 2) +:+ ")"] } } } }.
Proof. all: lia. Qed.

(** ** The recursive strategies under the interpreter's recursion limit

    The interpreter refuses to push a frame beyond its recursion limit
    (1000 unless reconfigured) and raises [RecursionError] instead.
    [frames] is the number of frames it can still push below the running
    call; each nested call uses one. *)

Fixpoint fibonacci_recursive_basic_within (frames : nat) (n : Z) {struct frames}
  : outcome Z :=
  if Z_lt_dec n 0 then Raise ValueError
  else if Z.eq_dec n 0 then Return 0
  else if Z.eq_dec n 1 then Return 1
  else
    match frames with
    | O => Raise RecursionError
    | S frames' =>
        match fibonacci_recursive_basic_within frames' (n - 1) with
        | Raise e => Raise e
        | Return x =>
            match fibonacci_recursive_basic_within frames' (n - 2) with
            | Raise e => Raise e
            | Return y => Return (x + y)
            end
        end
    end.

Fixpoint fibonacci_recursive_memoized_within (frames : nat) (n : Z)
    (memo : option (gmap Z Z)) {struct frames} : outcome Z * gmap Z Z :=
  if Z_lt_dec n 0 then (Raise ValueError, default ∅ memo)
  else
    let m := default ∅ memo in
    if dict_contains m n then (dict_getitem m n, m)
    else if Z.eq_dec n 0 then (Return 0, m)
    else if Z.eq_dec n 1 then (Return 1, m)
    else
      match frames with
      | O => (Raise RecursionError, m)
      | S frames' =>
          match fibonacci_recursive_memoized_within frames' (n - 1) (Some m) with
          | (Raise e, m1) => (Raise e, m1)
          | (Return x, m1) =>
              match fibonacci_recursive_memoized_within frames' (n - 2) (Some m1) with
              | (Raise e, m2) => (Raise e, m2)
              | (Return y, m2) =>
                  let m3 := <[n := x + y]> m2 in
                  (dict_getitem m3 n, m3)
              end
          end
      end.

(** The loop body of [fibonacci_sequence_recursive]: the call of
    [fibonacci_recursive_memoized] takes one of the frames. *)
Definition append_memoized_within (frames : nat) (i : Z) (result : list Z)
  : outcome (list Z) :=
  match frames with
  | O => Raise RecursionError
  | S frames' =>
      match fst (fibonacci_recursive_memoized_within frames' i None) with
      | Raise e => Raise e
      | Return v => Return (result ++ [v])
      end
  end.

Definition fibonacci_sequence_recursive_within (frames : nat) (n : Z)
  : outcome (list Z) :=
  if Z_lt_dec n 0 then Raise ValueError
  else for_in (range 0 n) (append_memoized_within frames) [].

(** ** The scripts under the interpreter's limits

    Converting an integer to text fails with [ValueError] when the integer
    has more decimal digits than the interpreter's limit [max_digits]
    (4300 unless reconfigured; 0 switches the limit off).  A script that
    raises keeps the text it has written, so a run maps the text written
    so far to the text written after it and the way it ended. *)

(** Whether [z] has at most [max_digits] decimal digits (always, when the
    limit is switched off). *)
Definition printable (max_digits : nat) (z : Z) : bool :=
  match max_digits with
  | O => true
  | _ => bool_decide (Z.abs z < 10 ^ Z.of_nat max_digits)
  end.

(** [str(z)], [repr(z)] and [format(z)] of an integer under the limit. *)
Definition str_within (max_digits : nat) (z : Z) : outcome string :=
  if printable max_digits z then Return (str z) else Raise ValueError.

(** [map(str, l)] consumed from left to right. *)
Fixpoint strs_within (max_digits : nat) (l : list Z) : outcome (list string) :=
  match l with
  | [] => Return []
  | z :: l' =>
      match str_within max_digits z with
      | Raise e => Raise e
      | Return s =>
          match strs_within max_digits l' with
          | Raise e => Raise e
          | Return ss => Return (s :: ss)
          end
      end
  end.

(** [str(l)] of a list of integers. *)
Definition str_list_within (max_digits : nat) (l : list Z) : outcome string :=
  match strs_within max_digits l with
  | Raise e => Raise e
  | Return ss => Return ("[" +:+ join ", " ss +:+ "]")
  end.

(** [int(input(...))]: the integer read, or [ValueError] for text that is
    not an integer. *)
Definition int_input (parsed : option Z) : outcome Z :=
  match parsed with
  | Some n => Return n
  | None => Raise ValueError
  end.

(** A piece of a script: from the text written so far to the text
    written after it and its result.  An exception keeps the text. *)
Definition io (A : Type) : Type := string -> string * outcome A.

#[global] Instance io_ret : MRet io := fun A a out => (out, Return a).

#[global] Instance io_bind : MBind io := fun A B k c out =>
  match c out with
  | (out', Return a) => k a out'
  | (out', Raise e) => (out', Raise e)
  end.

(** [print(s, end='')]. *)
Definition write (s : string) : io unit := fun out => (out +:+ s, Return tt).

(** An expression evaluated inside a script. *)
Definition eval {A : Type} (o : outcome A) : io A := fun out => (out, o).

(** [try: body except ValueError: handler]. *)
Definition try_except_ValueError (body handler : io unit) : io unit := fun out =>
  match body out with
  | (out', Raise ValueError) => handler out'
  | r => r
  end.

(** A [for i in xs:] loop in a script. *)
Fixpoint io_for_in {S : Type} (xs : list Z) (body : Z -> S -> io S) (s : S) : io S :=
  match xs with
  | [] => mret s
  | i :: xs' => s' ← body i s; io_for_in xs' body s'
  end.

(** *** Fibonnaci.py *)

(** The loop body, on the state [(first, a, b)]. *)
Definition print_term_within (max_digits : nat) (_ : Z) (st : bool * Z * Z)
  : io (bool * Z * Z) :=
  let '(first, a, b) := st in
  (if negb first then write " " else mret tt);;
  s ← eval (str_within max_digits a);
  write s;;
  mret (false, b, a + b).

Definition fibonnaci_script (max_digits : nat) (parsed : option Z) : io unit :=
  match int_input parsed with
  | Raise ValueError => write ("Please enter a valid integer." +:+ newline)
  | Raise e => eval (Raise e)
  | Return n =>
      if Z_le_dec n 0 then write ("Please enter a positive integer." +:+ newline)
      else
        sn ← eval (str_within max_digits n);
        write ("Fibonacci sequence up to " +:+ sn +:+ " terms:" +:+ newline);;
        io_for_in (range 0 n) (print_term_within max_digits) (true, 0, 1);;
        write newline
  end.

(** *** Fibonnaci_function.py, the interactive block *)

Definition generate_fibonacci_main (max_digits : nat) (parsed : option Z) : io unit :=
  match int_input parsed with
  | Raise ValueError => write ("Please enter a valid integer." +:+ newline)
  | Raise e => eval (Raise e)
  | Return n =>
      seq ← eval (generate_fibonacci n);
      match seq with
      | [] => write ("Please enter a positive integer." +:+ newline)
      | _ =>
          sn ← eval (str_within max_digits n);
          write ("Fibonacci sequence up to " +:+ sn +:+ " terms:" +:+ newline);;
          parts ← eval (strs_within max_digits seq);
          write (join " " parts +:+ newline)
      end
  end.

(** *** fibonacci_iterative.py, the interactive block *)

Definition iterative_interactive (max_digits : nat) (parsed : option Z) : io unit :=
  try_except_ValueError
    (n ← eval (int_input parsed);
     if Z_lt_dec n 0 then write ("Please enter a non-negative integer." +:+ newline)
     else
       result ← eval (fibonacci_iterative n);
       text ← eval (str_list_within max_digits result);
       write ("Fibonacci sequence: " +:+ text +:+ newline))
    (write ("Please enter a valid integer." +:+ newline)).

(** *** fibonacci_recursive.py, the interactive block

    [frames] is the number of frames the interpreter can still push below
    a function the block calls. *)
Definition recursive_interactive_within (frames max_digits : nat)
    (parsed : option Z) : io unit :=
  try_except_ValueError
    (n ← eval (int_input parsed);
     if Z_lt_dec n 0 then write ("Please enter a non-negative integer." +:+ newline)
     else if Z_gt_dec n 35 then
       write ("⚠️  For n > 35, using memoization to avoid slowness..." +:+ newline);;
       result ← eval (fst (fibonacci_recursive_memoized_within frames n None));
       sn ← eval (str_within max_digits n);
       sr ← eval (str_within max_digits result);
       write ("fibonacci_recursive_memoized(" +:+ sn +:+ ") = " +:+ sr +:+ newline)
     else
       result_basic ← eval (fibonacci_recursive_basic_within frames n);
       result_memo ← eval (fst (fibonacci_recursive_memoized_within frames n None));
       sn ← eval (str_within max_digits n);
       sb ← eval (str_within max_digits result_basic);
       write ("fibonacci_recursive_basic(" +:+ sn +:+ ") = " +:+ sb +:+ newline);;
       sn' ← eval (str_within max_digits n);
       sm ← eval (str_within max_digits result_memo);
       write ("fibonacci_recursive_memoized(" +:+ sn' +:+ ") = " +:+ sm +:+ newline))
    (write ("Please enter a valid integer." +:+ newline)).

(** ** Sample runs *)

Example ex_iter7 : fibonacci_iterative 7 = Return [0; 1; 1; 2; 3; 5; 8].
Proof. reflexivity. Qed.
Example ex_nth10 : get_nth_fibonacci_iterative 10 = Return 55.
Proof. reflexivity. Qed.
Example ex_basic10 : fibonacci_recursive_basic 10 = Return 55.
Proof. vm_compute. reflexivity. Qed.
Example ex_memo10 : fst (fibonacci_recursive_memoized 10 None) = Return 55.
Proof. vm_compute. reflexivity. Qed.
Example ex_memo50 : fst (fibonacci_recursive_memoized 50 None) = Return 12586269025.
Proof. vm_compute. reflexivity. Qed.
Example ex_generate_neg : generate_fibonacci (-3) = Return [].
Proof. reflexivity. Qed.
Example ex_seq8 : fibonacci_sequence_recursive 8 = Return [0; 1; 1; 2; 3; 5; 8; 13].
Proof. vm_compute. reflexivity. Qed.

(** ** Facts about the reference definition *)

Lemma fib_reference_SS k :
  fib_reference (S (S k)) = fib_reference (S k) + fib_reference k.
Proof. reflexivity. Qed.

Lemma F_0 : F 0 = 0.
Proof. reflexivity. Qed.

Lemma F_1 : F 1 = 1.
Proof. reflexivity. Qed.

Lemma F_rec n : 2 <= n -> F n = F (n - 1) + F (n - 2).
Proof.
  intros Hn. unfold F.
  replace (Z.to_nat n) with (S (S (Z.to_nat (n - 2)))) by lia.
  replace (Z.to_nat (n - 1)) with (S (Z.to_nat (n - 2))) by lia.
  apply fib_reference_SS.
Qed.

Lemma F_of_nat k : F (Z.of_nat k) = fib_reference k.
Proof. unfold F. by rewrite Nat2Z.id. Qed.

Lemma first_terms_range n : F <$> range 0 n = first_terms n.
Proof.
  unfold range, first_terms, seqZ. rewrite Z.sub_0_r, <- list_fmap_compose.
  apply list_fmap_ext. intros _ i _. simpl.
  rewrite Z.add_0_r. apply F_of_nat.
Qed.

Lemma length_first_terms n : length (first_terms n) = Z.to_nat n.
Proof. unfold first_terms. by rewrite length_fmap, length_seq. Qed.



Lemma length_range lo hi : length (range lo hi) = Z.to_nat (hi - lo).
Proof. apply length_seqZ. Qed.

(** ** The two loops of the iterative strategy *)

Lemma foldl_advance xs k :
  foldl advance (fib_reference k, fib_reference (S k)) xs =
  (fib_reference (k + length xs), fib_reference (S (k + length xs))).
Proof.
  revert k. induction xs as [|x xs IH]; intros k; cbn [foldl advance length].
  - by rewrite Nat.add_0_r.
  - rewrite Z.add_comm, <- fib_reference_SS, IH.
    by replace (S k + length xs)%nat with (k + S (length xs))%nat by lia.
Qed.

Lemma foldl_append_and_advance xs result k :
  foldl append_and_advance (result, fib_reference k, fib_reference (S k)) xs =
  (result ++ (fib_reference <$> seq (S k) (length xs)),
   fib_reference (k + length xs), fib_reference (S (k + length xs))).
Proof.
  revert result k.
  induction xs as [|x xs IH]; intros result k;
    cbn [foldl append_and_advance length seq fmap list_fmap].
  - by rewrite Nat.add_0_r, app_nil_r.
  - rewrite Z.add_comm, <- fib_reference_SS, IH, <- app_assoc.
    cbn [app].
    by replace (S k + length xs)%nat with (k + S (length xs))%nat by lia.
Qed.

Lemma get_nth_fibonacci_iterative_spec n :
  0 <= n -> get_nth_fibonacci_iterative n = Return (F n).
Proof.
  intros Hn. unfold get_nth_fibonacci_iterative.
  destruct (Z_lt_dec n 0); [lia|].
  destruct (Z.eq_dec n 0) as [->|]; [done|].
  destruct (Z.eq_dec n 1) as [->|]; [done|].
  change (0, 1) with (fib_reference 0, fib_reference 1).
  rewrite foldl_advance, length_range. simpl.
  unfold F. do 2 f_equal. lia.
Qed.

Lemma append_loop_spec n :
  2 <= n ->
  foldl append_and_advance ([0], 0, 1) (range 1 n) =
  (first_terms n, F (n - 1), F n).
Proof.
  intros Hn.
  change ([0], 0, 1) with ([0], fib_reference 0, fib_reference 1).
  rewrite foldl_append_and_advance, length_range. simpl.
  unfold first_terms, F.
  replace (Z.to_nat n) with (S (Z.to_nat (n - 1))) by lia.
  done.
Qed.

Lemma fibonacci_iterative_spec n :
  0 <= n -> fibonacci_iterative n = Return (first_terms n).
Proof.
  intros Hn. unfold fibonacci_iterative.
  destruct (Z_lt_dec n 0); [lia|].
  destruct (Z.eq_dec n 0) as [->|]; [done|].
  destruct (Z.eq_dec n 1) as [->|]; [done|].
  by rewrite append_loop_spec by lia.
Qed.

Lemma generate_fibonacci_spec n : generate_fibonacci n = Return (first_terms n).
Proof.
  unfold generate_fibonacci.
  destruct (Z_le_dec n 0).
  - unfold first_terms. by replace (Z.to_nat n) with 0%nat by lia.
  - destruct (Z.eq_dec n 1) as [->|]; [done|].
    by rewrite append_loop_spec by lia.
Qed.

(** ** The naive recursive strategy *)

Lemma basic_body n :
  fibonacci_recursive_basic n =
  if Z_lt_dec n 0 then Raise ValueError
  else if Z.eq_dec n 0 then Return 0
  else if Z.eq_dec n 1 then Return 1
  else
    match fibonacci_recursive_basic (n - 1) with
    | Raise e => Raise e
    | Return x =>
        match fibonacci_recursive_basic (n - 2) with
        | Raise e => Raise e
        | Return y => Return (x + y)
        end
    end.
Proof.
  rewrite fibonacci_recursive_basic_equation_1.
  destruct (Z_lt_dec n 0); simpl; [reflexivity|].
  destruct (Z.eq_dec n 0); simpl; [reflexivity|].
  destruct (Z.eq_dec n 1); simpl; reflexivity.
Qed.

Lemma fibonacci_recursive_basic_spec n :
  0 <= n -> fibonacci_recursive_basic n = Return (F n).
Proof.
  revert n. apply (Zlt_0_ind (fun n => fibonacci_recursive_basic n = Return (F n))).
  intros n IH Hn. rewrite basic_body.
  destruct (Z_lt_dec n 0); [lia|].
  destruct (Z.eq_dec n 0) as [->|]; [done|].
  destruct (Z.eq_dec n 1) as [->|]; [done|].
  rewrite !IH by lia. by rewrite <- F_rec by lia.
Qed.

(** ** The memoized strategy: one step of the function body *)

Lemma memoized_body n memo :
  fibonacci_recursive_memoized n memo =
  if Z_lt_dec n 0 then (Raise ValueError, default ∅ memo)
  else
    let m := default ∅ memo in
    if dict_contains m n then (dict_getitem m n, m)
    else if Z.eq_dec n 0 then (Return 0, m)
    else if Z.eq_dec n 1 then (Return 1, m)
    else
      match fibonacci_recursive_memoized (n - 1) (Some m) with
      | (Raise e, m1) => (Raise e, m1)
      | (Return x, m1) =>
          match fibonacci_recursive_memoized (n - 2) (Some m1) with
          | (Raise e, m2) => (Raise e, m2)
          | (Return y, m2) =>
              let m3 := <[n := x + y]> m2 in
              (dict_getitem m3 n, m3)
          end
      end.
Proof.
  rewrite fibonacci_recursive_memoized_equation_1.
  destruct (Z_lt_dec n 0); simpl; [reflexivity|].
  rewrite fibonacci_recursive_memoized_clause_1_clause_2_equation_1.
  destruct (dict_contains _ n); simpl; [reflexivity|].
  destruct (Z.eq_dec n 0); simpl; [reflexivity|].
  destruct (Z.eq_dec n 1); simpl; reflexivity.
Qed.

Lemma dict_contains_Some (m : gmap Z Z) k v :
  m !! k = Some v -> dict_contains m k = true.
Proof. intros H. apply bool_decide_eq_true. by exists v. Qed.

Lemma dict_contains_None (m : gmap Z Z) k :
  m !! k = None -> dict_contains m k = false.
Proof.
  intros H. apply bool_decide_eq_false. rewrite H. by intros [? ?].
Qed.

Lemma dict_getitem_insert (m : gmap Z Z) k v :
  dict_getitem (<[k := v]> m) k = Return v.
Proof. unfold dict_getitem. by rewrite lookup_insert_eq. Qed.

(** No dictionary supplied: the call runs on a new, empty one. *)
Lemma memoized_default n :
  fibonacci_recursive_memoized n None = fibonacci_recursive_memoized n (Some ∅).
Proof. by rewrite !memoized_body. Qed.

Lemma memoized_negative n memo :
  n < 0 -> fibonacci_recursive_memoized n memo = (Raise ValueError, default ∅ memo).
Proof. intros Hn. rewrite memoized_body. by destruct (Z_lt_dec n 0); [|lia]. Qed.

Lemma memoized_hit n (m : gmap Z Z) v :
  0 <= n -> m !! n = Some v ->
  fibonacci_recursive_memoized n (Some m) = (Return v, m).
Proof.
  intros Hn Hv. rewrite memoized_body.
  destruct (Z_lt_dec n 0); [lia|]. simpl.
  rewrite (dict_contains_Some _ _ _ Hv). unfold dict_getitem. by rewrite Hv.
Qed.

Lemma memoized_base n (m : gmap Z Z) :
  n = 0 \/ n = 1 -> m !! n = None ->
  fibonacci_recursive_memoized n (Some m) = (Return n, m).
Proof.
  intros Hn Hm. rewrite memoized_body.
  destruct (Z_lt_dec n 0); [lia|]. simpl.
  rewrite (dict_contains_None _ _ Hm).
  destruct (Z.eq_dec n 0) as [->|]; [done|].
  destruct (Z.eq_dec n 1) as [->|]; [done|lia].
Qed.

Lemma memoized_step n (m : gmap Z Z) :
  2 <= n -> m !! n = None ->
  fibonacci_recursive_memoized n (Some m) =
  match fibonacci_recursive_memoized (n - 1) (Some m) with
  | (Raise e, m1) => (Raise e, m1)
  | (Return x, m1) =>
      match fibonacci_recursive_memoized (n - 2) (Some m1) with
      | (Raise e, m2) => (Raise e, m2)
      | (Return y, m2) => (Return (x + y), <[n := x + y]> m2)
      end
  end.
Proof.
  intros Hn Hm. rewrite (memoized_body n).
  destruct (Z_lt_dec n 0); [lia|]. simpl.
  rewrite (dict_contains_None _ _ Hm).
  destruct (Z.eq_dec n 0); [lia|].
  destruct (Z.eq_dec n 1); [lia|].
  destruct (fibonacci_recursive_memoized (n - 1) (Some m)) as [[x|e] m1]; [|done].
  destruct (fibonacci_recursive_memoized (n - 2) (Some m1)) as [[y|e] m2]; [|done].
  by rewrite dict_getitem_insert.
Qed.

(** ** The memoized strategy on an arbitrary dictionary

    Whatever the dictionary holds, a call with a valid index returns a
    value, only adds entries (at keys [2 .. n]), and for [n >= 2] leaves
    the returned value stored at key [n]. *)
Lemma memoized_frame n :
  0 <= n ->
  forall m : gmap Z Z,
  exists v m',
    fibonacci_recursive_memoized n (Some m) = (Return v, m') /\
    m ⊆ m' /\
    (forall k, m !! k = None -> is_Some (m' !! k) -> 2 <= k <= n) /\
    (2 <= n -> m' !! n = Some v).
Proof.
  revert n. apply (Zlt_0_ind (fun n => forall m : gmap Z Z, exists v m',
    fibonacci_recursive_memoized n (Some m) = (Return v, m') /\
    m ⊆ m' /\
    (forall k, m !! k = None -> is_Some (m' !! k) -> 2 <= k <= n) /\
    (2 <= n -> m' !! n = Some v))).
  intros n IH Hn m.
  destruct (m !! n) as [v|] eqn:Hm.
  { exists v, m. rewrite (memoized_hit _ _ _ Hn Hm).
    split; [done|]. split; [done|]. split; [|done].
    intros k Hk [w Hw]; congruence. }
  destruct (Z_lt_dec n 2) as [Hsmall|Hbig].
  { exists n, m. rewrite memoized_base by (done || lia).
    split; [done|]. split; [done|]. split; [|lia].
    intros k Hk [w Hw]; congruence. }
  rewrite memoized_step by (done || lia).
  destruct (IH (n - 1) ltac:(lia) m) as (x & m1 & -> & Hsub1 & Hnew1 & _).
  destruct (IH (n - 2) ltac:(lia) m1) as (y & m2 & -> & Hsub2 & Hnew2 & _).
  assert (Hfree : m2 !! n = None).
  { destruct (m2 !! n) as [w|] eqn:Hw; [|done].
    destruct (m1 !! n) as [w1|] eqn:Hw1.
    - specialize (Hnew1 n Hm (mk_is_Some _ _ Hw1)). lia.
    - specialize (Hnew2 n Hw1 (mk_is_Some _ _ Hw)). lia. }
  exists (x + y), (<[n := x + y]> m2). split; [done|]. split; [|split].
  - etrans; [exact Hsub1|]. etrans; [exact Hsub2|]. by apply insert_subseteq.
  - intros k Hk [w Hw]. destruct (decide (n = k)) as [<-|Hne]; [lia|].
    rewrite lookup_insert_ne in Hw by done.
    destruct (m1 !! k) as [w1|] eqn:Hw1.
    + specialize (Hnew1 k Hk (mk_is_Some _ _ Hw1)). lia.
    + specialize (Hnew2 k Hw1 (mk_is_Some _ _ Hw)). lia.
  - intros _. apply lookup_insert_eq.
Qed.

(** ** The memoized strategy on a consistent dictionary *)

Lemma consistent_empty : consistent ∅.
Proof. intros k v _ H. by rewrite lookup_empty in H. Qed.

Lemma memoized_consistent n :
  0 <= n ->
  forall m : gmap Z Z, consistent m ->
  exists m',
    fibonacci_recursive_memoized n (Some m) = (Return (F n), m') /\
    consistent m'.
Proof.
  revert n. apply (Zlt_0_ind (fun n => forall m : gmap Z Z, consistent m ->
    exists m', fibonacci_recursive_memoized n (Some m) = (Return (F n), m') /\
               consistent m')).
  intros n IH Hn m Hcons.
  destruct (m !! n) as [v|] eqn:Hm.
  { exists m. rewrite (memoized_hit _ _ _ Hn Hm).
    by rewrite (Hcons n v Hn Hm). }
  destruct (Z_lt_dec n 2) as [Hsmall|Hbig].
  { exists m. rewrite memoized_base by (done || lia).
    split; [|done]. assert (n = 0 \/ n = 1) as [-> | ->] by lia; done. }
  destruct (IH (n - 1) ltac:(lia) m Hcons) as (m1 & E1' & Hcons1).
  destruct (IH (n - 2) ltac:(lia) m1 Hcons1) as (m2 & E2 & Hcons2).
  exists (<[n := F (n - 1) + F (n - 2)]> m2).
  rewrite memoized_step, E1', E2 by (done || lia).
  rewrite <- F_rec by lia. split; [done|].
  intros k v Hk Hv. destruct (decide (n = k)) as [<-|Hne].
  - rewrite lookup_insert_eq in Hv. congruence.
  - rewrite lookup_insert_ne in Hv by done. by apply Hcons2.
Qed.

Lemma fibonacci_recursive_memoized_spec n memo :
  0 <= n -> memo = None \/ memo = Some ∅ ->
  fst (fibonacci_recursive_memoized n memo) = Return (F n).
Proof.
  intros Hn Hmemo.
  destruct (memoized_consistent n Hn ∅ consistent_empty) as (m' & E & _).
  destruct Hmemo as [-> | ->]; [rewrite memoized_default|]; by rewrite E.
Qed.

(** ** The memoized sequence wrapper *)

Lemma for_in_append_memoized xs result :
  (forall i, i ∈ xs -> 0 <= i) ->
  for_in xs append_memoized result = Return (result ++ (F <$> xs)).
Proof.
  revert result. induction xs as [|i xs IH]; intros result Hxs; simpl.
  - by rewrite app_nil_r.
  - unfold append_memoized at 1.
    rewrite fibonacci_recursive_memoized_spec
      by (try (apply Hxs; left); by left).
    rewrite IH by (intros j Hj; apply Hxs; by right).
    by rewrite <- app_assoc.
Qed.

Lemma fibonacci_sequence_recursive_spec n :
  0 <= n -> fibonacci_sequence_recursive n = Return (first_terms n).
Proof.
  intros Hn. unfold fibonacci_sequence_recursive.
  destruct (Z_lt_dec n 0); [lia|].
  rewrite for_in_append_memoized, first_terms_range; [done|].
  intros i Hi. apply elem_of_seqZ in Hi. lia.
Qed.

(** ** The recursive strategies within and beyond the recursion limit *)

Lemma basic_within_enough frames n :
  n - 1 <= Z.of_nat frames ->
  fibonacci_recursive_basic_within frames n = fibonacci_recursive_basic n.
Proof.
  revert n. induction frames as [|k IH]; intros n Hn;
    rewrite basic_body; cbn [fibonacci_recursive_basic_within];
    destruct (Z_lt_dec n 0); try done;
    destruct (Z.eq_dec n 0); try done;
    destruct (Z.eq_dec n 1); try done; [lia|].
  by rewrite !IH by lia.
Qed.

Lemma basic_within_overflow frames n :
  Z.of_nat frames < n - 1 ->
  fibonacci_recursive_basic_within frames n = Raise RecursionError.
Proof.
  revert n. induction frames as [|k IH]; intros n Hn;
    cbn [fibonacci_recursive_basic_within];
    destruct (Z_lt_dec n 0); try lia;
    destruct (Z.eq_dec n 0); try lia;
    destruct (Z.eq_dec n 1); try lia; [done|].
  by rewrite IH by lia.
Qed.

Lemma memoized_within_enough frames n memo :
  n - 1 <= Z.of_nat frames ->
  fibonacci_recursive_memoized_within frames n memo =
  fibonacci_recursive_memoized n memo.
Proof.
  revert n memo. induction frames as [|k IH]; intros n memo Hn;
    rewrite memoized_body; cbn [fibonacci_recursive_memoized_within];
    destruct (Z_lt_dec n 0); try done; cbv zeta;
    destruct (dict_contains (default ∅ memo) n); try done;
    destruct (Z.eq_dec n 0); try done;
    destruct (Z.eq_dec n 1); try done; [lia|].
  rewrite IH by lia.
  destruct (fibonacci_recursive_memoized (n - 1) (Some (default ∅ memo)))
    as [[x|e] m1]; [|done].
  by rewrite IH by lia.
Qed.

Lemma memoized_within_default frames n :
  fibonacci_recursive_memoized_within frames n None =
  fibonacci_recursive_memoized_within frames n (Some ∅).
Proof. by destruct frames. Qed.

Lemma memoized_within_overflow frames n :
  Z.of_nat frames < n - 1 ->
  fibonacci_recursive_memoized_within frames n (Some ∅) = (Raise RecursionError, ∅).
Proof.
  revert n. induction frames as [|k IH]; intros n Hn;
    cbn [fibonacci_recursive_memoized_within];
    destruct (Z_lt_dec n 0); try lia; cbv zeta;
    change (default ∅ (Some ∅)) with (∅ : gmap Z Z);
    rewrite (dict_contains_None _ n (lookup_empty n));
    destruct (Z.eq_dec n 0); try lia;
    destruct (Z.eq_dec n 1); try lia; [done|].
  by rewrite IH by lia.
Qed.

(** A bounded run either does what the unbounded one does or stops with
    [RecursionError]. *)
Lemma memoized_within_cases frames n memo :
  fibonacci_recursive_memoized_within frames n memo =
  fibonacci_recursive_memoized n memo \/
  fst (fibonacci_recursive_memoized_within frames n memo) = Raise RecursionError.
Proof.
  revert n memo. induction frames as [|k IH]; intros n memo;
    rewrite memoized_body; cbn [fibonacci_recursive_memoized_within];
    destruct (Z_lt_dec n 0); auto; cbv zeta;
    destruct (dict_contains (default ∅ memo) n); auto;
    destruct (Z.eq_dec n 0); auto;
    destruct (Z.eq_dec n 1); auto.
  destruct (IH (n - 1) (Some (default ∅ memo))) as [-> | H1].
  - destruct (fibonacci_recursive_memoized (n - 1) (Some (default ∅ memo)))
      as [[x|e] m1]; [|by left].
    destruct (IH (n - 2) (Some m1)) as [-> | H2]; [by left|].
    right. destruct (fibonacci_recursive_memoized_within k (n - 2) (Some m1))
      as [[y|e] m2]; simpl in *; [discriminate | done].
  - right. destruct (fibonacci_recursive_memoized_within k (n - 1) _)
      as [[x|e] m1]; simpl in *; [discriminate | done].
Qed.

Lemma memoized_within_hit frames n (m : gmap Z Z) v :
  0 <= n -> m !! n = Some v ->
  fibonacci_recursive_memoized_within frames n (Some m) = (Return v, m).
Proof.
  intros Hn Hv.
  destruct frames; cbn [fibonacci_recursive_memoized_within];
    destruct (Z_lt_dec n 0); try lia; cbv zeta;
    change (default ∅ (Some m)) with m;
    rewrite (dict_contains_Some _ _ _ Hv); unfold dict_getitem; by rewrite Hv.
Qed.

Lemma memoized_unbounded_returns n memo :
  0 <= n -> returns (fst (fibonacci_recursive_memoized n memo)).
Proof.
  intros Hn. destruct memo as [m|]; [|rewrite memoized_default].
  - destruct (memoized_frame n Hn m) as (v & m' & E & _). exists v. by rewrite E.
  - destruct (memoized_frame n Hn ∅) as (v & m' & E & _). exists v. by rewrite E.
Qed.

Lemma memoized_within_returns_or_overflows frames n memo :
  0 <= n ->
  returns (fst (fibonacci_recursive_memoized_within frames n memo)) \/
  fst (fibonacci_recursive_memoized_within frames n memo) = Raise RecursionError /\
  Z.of_nat frames < n - 1.
Proof.
  intros Hn. destruct (Z_le_dec (n - 1) (Z.of_nat frames)) as [Hfit|Hdeep].
  - left. rewrite memoized_within_enough by done. by apply memoized_unbounded_returns.
  - destruct (memoized_within_cases frames n memo) as [E | E].
    + left. rewrite E. by apply memoized_unbounded_returns.
    + right. split; [done | lia].
Qed.

Lemma basic_within_returns_or_overflows frames n :
  0 <= n ->
  returns (fibonacci_recursive_basic_within frames n) \/
  fibonacci_recursive_basic_within frames n = Raise RecursionError /\
  Z.of_nat frames < n - 1.
Proof.
  intros Hn. destruct (Z_le_dec (n - 1) (Z.of_nat frames)) as [Hfit|Hdeep].
  - left. rewrite basic_within_enough, fibonacci_recursive_basic_spec by done.
    by eexists.
  - right. split; [apply basic_within_overflow|]; lia.
Qed.

Lemma for_in_ext {S : Type} xs (body1 body2 : Z -> S -> outcome S) s :
  (forall i s', i ∈ xs -> body1 i s' = body2 i s') ->
  for_in xs body1 s = for_in xs body2 s.
Proof.
  revert s. induction xs as [|i xs IH]; intros s Hext; [done|].
  cbn [for_in]. rewrite Hext by left.
  destruct (body2 i s); [|done]. apply IH. intros j s' Hj. apply Hext. by right.
Qed.

Lemma for_in_overflows {S : Type} xs (body : Z -> S -> outcome S) s :
  (forall i s', i ∈ xs -> returns (body i s') \/ body i s' = Raise RecursionError) ->
  (exists i, i ∈ xs /\ forall s', body i s' = Raise RecursionError) ->
  for_in xs body s = Raise RecursionError.
Proof.
  revert s. induction xs as [|i xs IH]; intros s Hall (j & Hj & Hraise).
  - by apply elem_of_nil in Hj.
  - cbn [for_in]. apply elem_of_cons in Hj as [<- | Hj].
    + by rewrite Hraise.
    + destruct (Hall i s ltac:(left)) as [[s' ->] | ->]; [|done].
      apply IH; [|by exists j]. intros k s'' Hk. apply Hall. by right.
Qed.

Lemma sequence_within_enough frames n :
  n = 0 \/ (1 <= Z.of_nat frames /\ n - 1 <= Z.of_nat frames) ->
  fibonacci_sequence_recursive_within frames n = fibonacci_sequence_recursive n.
Proof.
  intros Hfit. unfold fibonacci_sequence_recursive_within, fibonacci_sequence_recursive.
  destruct (Z_lt_dec n 0); [done|].
  destruct Hfit as [-> | [Hone Hfit]]; [done|].
  apply for_in_ext. intros i result Hi. apply elem_of_seqZ in Hi.
  unfold append_memoized_within, append_memoized.
  destruct frames as [|k]; [lia|].
  by rewrite memoized_within_enough by lia.
Qed.

Lemma sequence_within_overflow frames n :
  1 <= n -> frames = 0%nat \/ Z.of_nat frames < n - 1 ->
  fibonacci_sequence_recursive_within frames n = Raise RecursionError.
Proof.
  intros Hn Hdeep. unfold fibonacci_sequence_recursive_within.
  destruct (Z_lt_dec n 0); [lia|].
  apply for_in_overflows.
  - intros i result Hi. apply elem_of_seqZ in Hi. unfold append_memoized_within.
    destruct frames as [|k]; [by right|].
    destruct (memoized_within_returns_or_overflows k i None ltac:(lia))
      as [[v ->] | [-> _]]; [left; by eexists | by right].
  - exists (n - 1). split; [apply elem_of_seqZ; lia|].
    intros result. unfold append_memoized_within.
    destruct frames as [|k]; [done|]. destruct Hdeep as [|Hdeep]; [done|].
    rewrite memoized_within_default, memoized_within_overflow by lia. done.
Qed.

Lemma sequence_within_returns_or_overflows frames n :
  0 <= n ->
  returns (fibonacci_sequence_recursive_within frames n) \/
  fibonacci_sequence_recursive_within frames n = Raise RecursionError /\
  Z.of_nat frames < n.
Proof.
  intros Hn.
  destruct (decide (n = 0 \/ (1 <= Z.of_nat frames /\ n - 1 <= Z.of_nat frames)))
    as [Hfit|Hdeep].
  - left. rewrite sequence_within_enough, fibonacci_sequence_recursive_spec by done.
    by eexists.
  - right. split; [apply sequence_within_overflow|]; lia.
Qed.

(** ** Properties stated by the specification *)

(** C1, as the code has it: for every n >= 0 whose recursion fits the
    interpreter's recursion limit (n - 1 frames below the call) the three
    single-value strategies return the same integer: the iterative one,
    the naive recursive one, and the memoized one started on a fresh
    cache (no dictionary passed, or an empty one passed).  When the
    recursion does not fit, the iterative strategy still returns while
    the naive and the memoized strategy raise [RecursionError]. *)
Theorem single_value_strategies_agree_within_limit (frames : nat) (n : Z) :
  0 <= n ->
  (n - 1 <= Z.of_nat frames ->
     exists v,
       get_nth_fibonacci_iterative n = Return v /\
       fibonacci_recursive_basic_within frames n = Return v /\
       fst (fibonacci_recursive_memoized_within frames n None) = Return v /\
       fst (fibonacci_recursive_memoized_within frames n (Some ∅)) = Return v) /\
  (Z.of_nat frames < n - 1 ->
     returns (get_nth_fibonacci_iterative n) /\
     fibonacci_recursive_basic_within frames n = Raise RecursionError /\
     fst (fibonacci_recursive_memoized_within frames n None) = Raise RecursionError /\
     fst (fibonacci_recursive_memoized_within frames n (Some ∅)) = Raise RecursionError).
Proof.
  intros Hn. split; intros Hframes.
  - exists (F n).
    rewrite basic_within_enough, !memoized_within_enough by done.
    split; [by apply get_nth_fibonacci_iterative_spec|].
    split; [by apply fibonacci_recursive_basic_spec|].
    split; apply fibonacci_recursive_memoized_spec; auto.
  - rewrite memoized_within_default, memoized_within_overflow by done.
    split; [exists (F n); by apply get_nth_fibonacci_iterative_spec|].
    split; [by apply basic_within_overflow | done].
Qed.

Lemma single_value_strategies_agree_within_limit_witness :
  (0 <= 10 /\ 10 - 1 <= Z.of_nat 20 /\
   exists v,
     get_nth_fibonacci_iterative 10 = Return v /\
     fibonacci_recursive_basic_within 20 10 = Return v /\
     fst (fibonacci_recursive_memoized_within 20 10 None) = Return v /\
     fst (fibonacci_recursive_memoized_within 20 10 (Some ∅)) = Return v) /\
  (0 <= 30 /\ Z.of_nat 20 < 30 - 1 /\
   fibonacci_recursive_basic_within 20 30 = Raise RecursionError).
Proof.
  split.
  - split; [lia|]. split; [lia|].
    apply (proj1 (single_value_strategies_agree_within_limit 20 10 ltac:(lia))). lia.
  - split; [lia|]. split; [lia|].
    apply (proj2 (single_value_strategies_agree_within_limit 20 30 ltac:(lia))). lia.
Defined.

(** C1 as stated fails: with 1000 frames, CPython's default recursion
    limit, the iterative strategy returns at n = 1500 while the naive and
    the memoized strategy raise [RecursionError], so the three do not
    return the same integer. *)
Lemma single_value_strategies_disagree_beyond_limit :
  returns (get_nth_fibonacci_iterative 1500) /\
  fibonacci_recursive_basic_within 1000 1500 = Raise RecursionError /\
  fst (fibonacci_recursive_memoized_within 1000 1500 None) = Raise RecursionError /\
  ~ (exists v,
       get_nth_fibonacci_iterative 1500 = Return v /\
       fibonacci_recursive_basic_within 1000 1500 = Return v /\
       fst (fibonacci_recursive_memoized_within 1000 1500 None) = Return v).
Proof.
  assert (fibonacci_recursive_basic_within 1000 1500 = Raise RecursionError) as Hb
    by (vm_compute; reflexivity).
  split; [exists (F 1500); by apply get_nth_fibonacci_iterative_spec|].
  split; [exact Hb|].
  split; [vm_compute; reflexivity|].
  intros (v & _ & Hv & _). rewrite Hb in Hv. discriminate Hv.
Qed.

(** C2: [get_nth_fibonacci_iterative] is the Fibonacci function: it
    returns 0 at 0, 1 at 1, at every n >= 2 the sum of its results at
    n-1 and n-2, and so equals the reference definition at every
    n >= 0. *)
Theorem nth_iterative_is_fibonacci :
  get_nth_fibonacci_iterative 0 = Return 0 /\
  get_nth_fibonacci_iterative 1 = Return 1 /\
  (forall n, 2 <= n ->
     exists x y,
       get_nth_fibonacci_iterative (n - 1) = Return x /\
       get_nth_fibonacci_iterative (n - 2) = Return y /\
       get_nth_fibonacci_iterative n = Return (x + y)) /\
  (forall n, 0 <= n -> get_nth_fibonacci_iterative n = Return (F n)).
Proof.
  split; [done|]. split; [done|]. split.
  - intros n Hn. exists (F (n - 1)), (F (n - 2)).
    rewrite !get_nth_fibonacci_iterative_spec by lia.
    by rewrite <- F_rec by lia.
  - apply get_nth_fibonacci_iterative_spec.
Qed.

Lemma nth_iterative_is_fibonacci_witness :
  2 <= 10 /\
  exists x y,
    get_nth_fibonacci_iterative (10 - 1) = Return x /\
    get_nth_fibonacci_iterative (10 - 2) = Return y /\
    get_nth_fibonacci_iterative 10 = Return (x + y).
Proof.
  split; [lia|].
  apply (proj1 (proj2 (proj2 nth_iterative_is_fibonacci)) 10). lia.
Defined.




(** C4, as the code has it: when [fibonacci_recursive_memoized] is called
    with a cache that has no entry for n and n is 0 or 1, it returns 0
    respectively 1 and leaves the cache exactly as it was; the base-case
    value is not written to the cache. *)
Theorem memoized_base_case_leaves_cache (n : Z) (cache : gmap Z Z) :
  n = 0 \/ n = 1 -> cache !! n = None ->
  fibonacci_recursive_memoized n (Some cache) = (Return n, cache).
Proof. apply memoized_base. Qed.

Lemma memoized_base_case_leaves_cache_witness :
  (1 = 0 \/ 1 = 1) /\ ({[5 := 5]} : gmap Z Z) !! 1 = None /\
  fibonacci_recursive_memoized 1 (Some {[5 := 5]}) = (Return 1, {[5 := 5]}).
Proof.
  split; [by right|]. split; [reflexivity|].
  apply (memoized_base_case_leaves_cache 1 {[5 := 5]}); [by right | reflexivity].
Defined.

(** C4 as stated fails: after computing the base cases on an empty cache
    the values 0 and 1 are returned, but key 0 does not map to 0 and key
    1 does not map to 1 afterwards. *)
Lemma memoized_base_case_not_cached :
  ~ (fst (fibonacci_recursive_memoized 0 (Some ∅)) = Return 0 /\
     snd (fibonacci_recursive_memoized 0 (Some ∅)) !! 0 = Some 0) /\
  ~ (fst (fibonacci_recursive_memoized 1 (Some ∅)) = Return 1 /\
     snd (fibonacci_recursive_memoized 1 (Some ∅)) !! 1 = Some 1).
Proof.
  rewrite !memoized_base by (auto; apply lookup_empty). simpl.
  rewrite !lookup_empty. split; intros [_ H]; discriminate H.
Qed.

(** C5, as the code has it: for a negative n (in particular n = -1)
    [fibonacci_iterative], [get_nth_fibonacci_iterative],
    [fibonacci_recursive_basic], [fibonacci_recursive_memoized] (with or
    without a cache) and [fibonacci_sequence_recursive] raise
    [ValueError], while [generate_fibonacci] returns the empty list for
    every n <= 0.  For n >= 0 the three iterative operations return; each
    recursive operation returns too, unless its recursion needs more
    frames than the interpreter's recursion limit leaves, and then it
    raises [RecursionError].  Nothing else is ever raised. *)
Theorem invalid_argument_only (frames : nat) (n : Z) (memo : option (gmap Z Z)) :
  (n < 0 ->
     fibonacci_iterative n = Raise ValueError /\
     get_nth_fibonacci_iterative n = Raise ValueError /\
     fibonacci_recursive_basic_within frames n = Raise ValueError /\
     fst (fibonacci_recursive_memoized_within frames n memo) = Raise ValueError /\
     fibonacci_sequence_recursive_within frames n = Raise ValueError) /\
  (n <= 0 -> generate_fibonacci n = Return []) /\
  (0 <= n ->
     returns (fibonacci_iterative n) /\
     returns (get_nth_fibonacci_iterative n) /\
     returns (generate_fibonacci n) /\
     (returns (fibonacci_recursive_basic_within frames n) \/
      fibonacci_recursive_basic_within frames n = Raise RecursionError /\
      Z.of_nat frames < n - 1) /\
     (returns (fst (fibonacci_recursive_memoized_within frames n memo)) \/
      fst (fibonacci_recursive_memoized_within frames n memo) = Raise RecursionError /\
      Z.of_nat frames < n - 1) /\
     (returns (fibonacci_sequence_recursive_within frames n) \/
      fibonacci_sequence_recursive_within frames n = Raise RecursionError /\
      Z.of_nat frames < n)).
Proof.
  split; [|split]; intros Hn.
  - unfold fibonacci_iterative, get_nth_fibonacci_iterative,
      fibonacci_sequence_recursive_within.
    destruct (Z_lt_dec n 0); [|lia].
    destruct frames; cbn [fibonacci_recursive_basic_within
                            fibonacci_recursive_memoized_within];
      by destruct (Z_lt_dec n 0); [|lia].
  - rewrite generate_fibonacci_spec. unfold first_terms.
    by replace (Z.to_nat n) with 0%nat by lia.
  - split; [eexists; by apply fibonacci_iterative_spec|].
    split; [eexists; by apply get_nth_fibonacci_iterative_spec|].
    split; [eexists; apply generate_fibonacci_spec|].
    split; [by apply basic_within_returns_or_overflows|].
    split; [by apply memoized_within_returns_or_overflows|].
    by apply sequence_within_returns_or_overflows.
Qed.

Lemma invalid_argument_only_witness :
  (-1 < 0 /\
   fibonacci_iterative (-1) = Raise ValueError /\
   get_nth_fibonacci_iterative (-1) = Raise ValueError /\
   fibonacci_recursive_basic_within 1000 (-1) = Raise ValueError /\
   fst (fibonacci_recursive_memoized_within 1000 (-1) (Some {[-1 := 1]})) = Raise ValueError /\
   fibonacci_sequence_recursive_within 1000 (-1) = Raise ValueError) /\
  (-1 <= 0 /\ generate_fibonacci (-1) = Return []) /\
  (0 <= 3 /\ returns (generate_fibonacci 3)).
Proof.
  split; [|split].
  - split; [lia|].
    apply (proj1 (invalid_argument_only 1000 (-1) (Some {[-1 := 1]}))). lia.
  - split; [lia|].
    apply (proj1 (proj2 (invalid_argument_only 1000 (-1) None))). lia.
  - split; [lia|].
    apply (proj2 (proj2 (invalid_argument_only 1000 3 None))). lia.
Defined.

(** C5 as stated fails twice: [generate_fibonacci] does not raise at
    n = -1, it returns the empty list; and [ValueError] is not the only
    failure, since with 1000 frames, CPython's default recursion limit,
    [fibonacci_recursive_basic] raises [RecursionError] at n = 1500. *)
Lemma error_kinds_counterexample :
  generate_fibonacci (-1) = Return [] /\
  generate_fibonacci (-1) <> Raise ValueError /\
  fibonacci_recursive_basic_within 1000 1500 = Raise RecursionError /\
  fibonacci_recursive_basic_within 1000 1500 <> Raise ValueError.
Proof.
  split; [reflexivity|]. split; [discriminate|].
  assert (fibonacci_recursive_basic_within 1000 1500 = Raise RecursionError) as ->
    by (vm_compute; reflexivity).
  split; [reflexivity | discriminate].
Qed.

(** C6: two calls of [fibonacci_recursive_memoized] at index 10 on the
    same cache, whatever it held at first, return the same value; the
    first call leaves that value stored at key 10 and the second call
    leaves the cache, and so its entry for key 10, as the first call left
    it. *)
Theorem memoized_idempotent_at_10 (cache : gmap Z Z) :
  exists v cache1,
    fibonacci_recursive_memoized 10 (Some cache) = (Return v, cache1) /\
    cache1 !! 10 = Some v /\
    fibonacci_recursive_memoized 10 (Some cache1) = (Return v, cache1).
Proof.
  destruct (memoized_frame 10 ltac:(lia) cache) as (v & cache1 & E & _ & _ & Hstored).
  exists v, cache1. specialize (Hstored ltac:(lia)).
  split; [done|]. split; [done|]. by apply memoized_hit.
Qed.

(** C7: for every cache and every n >= 0, a call of
    [fibonacci_recursive_memoized] on that cache keeps every entry the
    cache had: a key present before the call maps to the same value
    after it. *)
Theorem memoized_never_overwrites (n : Z) (cache : gmap Z Z) (k v : Z) :
  0 <= n -> cache !! k = Some v ->
  snd (fibonacci_recursive_memoized n (Some cache)) !! k = Some v.
Proof.
  intros Hn Hk.
  destruct (memoized_frame n Hn cache) as (r & cache' & E & Hsub & _).
  rewrite E. simpl. by eapply lookup_weaken.
Qed.

Lemma memoized_never_overwrites_witness :
  0 <= 6 /\ ({[4 := 100; 9 := 9]} : gmap Z Z) !! 4 = Some 100 /\
  snd (fibonacci_recursive_memoized 6 (Some {[4 := 100; 9 := 9]})) !! 4 = Some 100.
Proof.
  split; [lia|]. split; [reflexivity|].
  apply (memoized_never_overwrites 6 {[4 := 100; 9 := 9]} 4 100); [lia | reflexivity].
Defined.

(** C8: at n = 0 each sequence-producing operation returns the empty
    list, and [get_nth_fibonacci_iterative] returns 0. *)
Theorem boundary_at_zero :
  fibonacci_iterative 0 = Return [] /\
  generate_fibonacci 0 = Return [] /\
  fibonacci_sequence_recursive 0 = Return [] /\
  get_nth_fibonacci_iterative 0 = Return 0.
Proof. repeat split. Qed.



(** C10: for every n >= 0 and every cache that holds a value v at key n,
    [fibonacci_recursive_memoized] returns v, whatever v is, and the
    cache after the call is the cache before it. *)
Theorem memoized_cache_hit (n v : Z) (cache : gmap Z Z) :
  0 <= n -> cache !! n = Some v ->
  fibonacci_recursive_memoized n (Some cache) = (Return v, cache).
Proof. apply memoized_hit. Qed.

Lemma memoized_cache_hit_witness :
  0 <= 4 /\ ({[4 := 100]} : gmap Z Z) !! 4 = Some 100 /\
  fibonacci_recursive_memoized 4 (Some {[4 := 100]}) = (Return 100, {[4 := 100]}).
Proof.
  split; [lia|]. split; [reflexivity|].
  apply (memoized_cache_hit 4 100 {[4 := 100]}); [lia | reflexivity].
Defined.

(** ** Further properties of the code *)

Lemma fib_reference_nonneg k : 0 <= fib_reference k /\ 0 <= fib_reference (S k).
Proof.
  induction k as [|k [IH1 IH2]]; [done|].
  split; [done|]. rewrite fib_reference_SS. lia.
Qed.

Lemma fib_reference_le_S k : fib_reference k <= fib_reference (S k).
Proof.
  destruct k as [|k]; [done|].
  rewrite fib_reference_SS. pose proof (fib_reference_nonneg k). lia.
Qed.

Lemma fib_reference_mono j k : (j <= k)%nat -> fib_reference j <= fib_reference k.
Proof.
  induction 1 as [|k _ IH]; [done|].
  etrans; [exact IH | apply fib_reference_le_S].
Qed.

Lemma first_terms_lookup n (i : nat) :
  (i < Z.to_nat n)%nat -> first_terms n !! i = Some (fib_reference i).
Proof.
  intros Hi. unfold first_terms.
  rewrite list_lookup_fmap, lookup_seq_lt by done. done.
Qed.

Lemma first_terms_take m n :
  m <= n -> take (Z.to_nat m) (first_terms n) = first_terms m.
Proof.
  intros Hmn. unfold first_terms.
  rewrite <- fmap_take, take_seq. do 2 f_equal. lia.
Qed.

Lemma memoized_fills n :
  0 <= n ->
  forall j (m : gmap Z Z), holds_terms_upto j m ->
  exists m',
    fibonacci_recursive_memoized n (Some m) = (Return (F n), m') /\
    holds_terms_upto (Z.max j n) m'.
Proof.
  revert n. apply (Zlt_0_ind (fun n => forall j (m : gmap Z Z),
    holds_terms_upto j m ->
    exists m', fibonacci_recursive_memoized n (Some m) = (Return (F n), m') /\
               holds_terms_upto (Z.max j n) m')).
  intros n IH Hn j m Hm.
  pose proof (Hm n) as Hmn. case_bool_decide as Hin.
  { exists m. rewrite (memoized_hit _ _ _ Hn Hmn). split; [done|].
    by replace (Z.max j n) with j by lia. }
  destruct (Z_lt_dec n 2) as [Hsmall|Hbig].
  { exists m. rewrite memoized_base by (done || lia). split.
    - assert (n = 0 \/ n = 1) as [-> | ->] by lia; done.
    - intros k. rewrite (Hm k). repeat case_bool_decide; done || lia. }
  destruct (IH (n - 1) ltac:(lia) j m Hm) as (m1 & E1 & Hm1).
  destruct (IH (n - 2) ltac:(lia) _ m1 Hm1) as (m2 & E2 & Hm2).
  exists (<[n := F (n - 1) + F (n - 2)]> m2).
  rewrite memoized_step, E1, E2 by (done || lia).
  rewrite <- F_rec by lia. split; [done|].
  intros k. destruct (decide (n = k)) as [<-|Hne].
  - rewrite lookup_insert_eq. case_bool_decide; done || lia.
  - rewrite lookup_insert_ne, (Hm2 k) by done.
    repeat case_bool_decide; done || lia.
Qed.

Lemma memoized_new_keys n (m : gmap Z Z) :
  0 <= n ->
  dom (snd (fibonacci_recursive_memoized n (Some m))) ⊆
  dom m ∪ list_to_set (range 2 (n + 1)).
Proof.
  intros Hn. destruct (memoized_frame n Hn m) as (v & m' & E & _ & Hnew & _).
  rewrite E. simpl. intros k Hk. apply elem_of_dom in Hk.
  destruct (m !! k) as [w|] eqn:Hw.
  - apply elem_of_union_l, elem_of_dom. by exists w.
  - apply elem_of_union_r, elem_of_list_to_set, elem_of_seqZ.
    specialize (Hnew k Hw Hk). lia.
Qed.

(** X1: for every n >= 0, [generate_fibonacci] and [fibonacci_iterative]
    return the same list. *)
Theorem generate_matches_iterative (n : Z) :
  0 <= n -> generate_fibonacci n = fibonacci_iterative n.
Proof. intros Hn. by rewrite generate_fibonacci_spec, fibonacci_iterative_spec. Qed.

Lemma generate_matches_iterative_witness :
  0 <= 6 /\ generate_fibonacci 6 = fibonacci_iterative 6.
Proof. split; [lia | apply (generate_matches_iterative 6); lia]. Defined.

(** X2: for 0 <= i < n, the element at index i of the list returned by
    [fibonacci_iterative n] is the value [get_nth_fibonacci_iterative i]
    returns. *)
Theorem sequence_element_is_nth (n i : Z) :
  0 <= i < n ->
  exists l v,
    fibonacci_iterative n = Return l /\
    get_nth_fibonacci_iterative i = Return v /\
    l !! Z.to_nat i = Some v.
Proof.
  intros Hi. exists (first_terms n), (F i).
  rewrite fibonacci_iterative_spec, get_nth_fibonacci_iterative_spec by lia.
  split; [done|]. split; [done|]. apply first_terms_lookup. lia.
Qed.

Lemma sequence_element_is_nth_witness :
  0 <= 5 < 8 /\
  exists l v,
    fibonacci_iterative 8 = Return l /\
    get_nth_fibonacci_iterative 5 = Return v /\
    l !! Z.to_nat 5 = Some v.
Proof. split; [lia | apply (sequence_element_is_nth 8 5); lia]. Defined.

(** X3: for 0 <= m <= n, the list returned by [fibonacci_iterative m] is
    the first m elements of the list returned by [fibonacci_iterative n]. *)
Theorem shorter_sequence_is_prefix (m n : Z) :
  0 <= m <= n ->
  exists l1 l2,
    fibonacci_iterative m = Return l1 /\
    fibonacci_iterative n = Return l2 /\
    l1 = take (Z.to_nat m) l2.
Proof.
  intros Hmn. exists (first_terms m), (first_terms n).
  rewrite !fibonacci_iterative_spec by lia.
  by rewrite first_terms_take by lia.
Qed.

Lemma shorter_sequence_is_prefix_witness :
  0 <= 3 <= 7 /\
  exists l1 l2,
    fibonacci_iterative 3 = Return l1 /\
    fibonacci_iterative 7 = Return l2 /\
    l1 = take (Z.to_nat 3) l2.
Proof. split; [lia | apply (shorter_sequence_is_prefix 3 7); lia]. Defined.

(** X4: in a list returned by [fibonacci_iterative], every element that
    has two predecessors is their sum. *)
Theorem sequence_obeys_recurrence (n : Z) (l : list Z) (i : nat) (x y z : Z) :
  fibonacci_iterative n = Return l ->
  l !! i = Some x -> l !! S i = Some y -> l !! S (S i) = Some z ->
  z = x + y.
Proof.
  intros Hl Hx Hy Hz.
  destruct (Z_lt_dec n 0) as [Hneg|Hn].
  { unfold fibonacci_iterative in Hl. by destruct (Z_lt_dec n 0). }
  rewrite fibonacci_iterative_spec in Hl by lia. injection Hl as <-.
  assert (S (S i) < Z.to_nat n)%nat as Hi.
  { rewrite <- (length_first_terms n). by eapply lookup_lt_Some. }
  rewrite first_terms_lookup in Hx, Hy, Hz by lia.
  injection Hx as <-. injection Hy as <-. injection Hz as <-.
  rewrite fib_reference_SS. lia.
Qed.

Lemma sequence_obeys_recurrence_witness :
  fibonacci_iterative 7 = Return [0; 1; 1; 2; 3; 5; 8] /\
  [0; 1; 1; 2; 3; 5; 8] !! 5%nat = Some 5 /\
  5 = 2 + 3.
Proof.
  split; [reflexivity|]. split; [reflexivity|].
  apply (sequence_obeys_recurrence 7 [0; 1; 1; 2; 3; 5; 8] 3 2 3 5);
    reflexivity.
Defined.

(** X5: the values of [get_nth_fibonacci_iterative] are non-negative and
    do not decrease with the index. *)
Theorem nth_iterative_monotone (m n : Z) :
  0 <= m <= n ->
  exists x y,
    get_nth_fibonacci_iterative m = Return x /\
    get_nth_fibonacci_iterative n = Return y /\
    0 <= x <= y.
Proof.
  intros Hmn. exists (F m), (F n).
  rewrite !get_nth_fibonacci_iterative_spec by lia.
  split; [done|]. split; [done|]. unfold F. split.
  - apply fib_reference_nonneg.
  - apply fib_reference_mono. lia.
Qed.

Lemma nth_iterative_monotone_witness :
  0 <= 4 <= 9 /\
  exists x y,
    get_nth_fibonacci_iterative 4 = Return x /\
    get_nth_fibonacci_iterative 9 = Return y /\
    0 <= x <= y.
Proof. split; [lia | apply (nth_iterative_monotone 4 9); lia]. Defined.

Lemma consistent_singleton_5 : consistent {[5 := 5]}.
Proof.
  intros k v _ Hk. apply lookup_singleton_Some in Hk as [<- <-]. reflexivity.
Qed.

(** X6: called with n >= 0 within the recursion limit on a cache whose
    entries at valid indices are all Fibonacci terms,
    [fibonacci_recursive_memoized] returns the value of
    [get_nth_fibonacci_iterative n] and leaves a cache with the same
    property. *)
Theorem memoized_keeps_consistent (frames : nat) (n : Z) (cache : gmap Z Z) :
  0 <= n -> n - 1 <= Z.of_nat frames -> consistent cache ->
  exists v cache',
    get_nth_fibonacci_iterative n = Return v /\
    fibonacci_recursive_memoized_within frames n (Some cache) = (Return v, cache') /\
    consistent cache'.
Proof.
  intros Hn Hfit Hc.
  destruct (memoized_consistent n Hn cache Hc) as (cache' & E & Hc').
  exists (F n), cache'.
  by rewrite memoized_within_enough, get_nth_fibonacci_iterative_spec.
Qed.

Lemma memoized_keeps_consistent_witness :
  0 <= 7 /\ 7 - 1 <= Z.of_nat 10 /\ consistent {[5 := 5]} /\
  exists v cache',
    get_nth_fibonacci_iterative 7 = Return v /\
    fibonacci_recursive_memoized_within 10 7 (Some {[5 := 5]}) = (Return v, cache') /\
    consistent cache'.
Proof.
  split; [lia|]. split; [lia|]. split; [exact consistent_singleton_5|].
  apply (memoized_keeps_consistent 10 7 {[5 := 5]});
    [lia | lia | exact consistent_singleton_5].
Defined.

(** X7: after [fibonacci_recursive_memoized] ran with n >= 0 on an empty
    cache within the recursion limit, the cache holds exactly the keys
    2 .. n, each with its Fibonacci term; keys 0 and 1 are never stored.
    Beyond the recursion limit the call raises [RecursionError] and the
    cache is still empty. *)
Theorem memoized_fresh_cache_contents (frames : nat) (n k : Z) :
  0 <= n ->
  (n - 1 <= Z.of_nat frames ->
     snd (fibonacci_recursive_memoized_within frames n (Some ∅)) !! k =
     if bool_decide (2 <= k <= n) then Some (F k) else None) /\
  (Z.of_nat frames < n - 1 ->
     fibonacci_recursive_memoized_within frames n (Some ∅) =
     (Raise RecursionError, ∅)).
Proof.
  intros Hn. split; intros Hframes; [|by apply memoized_within_overflow].
  rewrite memoized_within_enough by done.
  destruct (memoized_fills n Hn 0 ∅) as (m' & E & Hm').
  { intros j. rewrite lookup_empty. case_bool_decide; done || lia. }
  rewrite E. simpl. rewrite (Hm' k).
  repeat case_bool_decide; done || lia.
Qed.

Lemma memoized_fresh_cache_contents_witness :
  (0 <= 6 /\ 6 - 1 <= Z.of_nat 10 /\
   snd (fibonacci_recursive_memoized_within 10 6 (Some ∅)) !! 1 = None /\
   snd (fibonacci_recursive_memoized_within 10 6 (Some ∅)) !! 4 = Some 3) /\
  (0 <= 9 /\ Z.of_nat 3 < 9 - 1 /\
   fibonacci_recursive_memoized_within 3 9 (Some ∅) = (Raise RecursionError, ∅)).
Proof.
  split.
  - split; [lia|]. split; [lia|]. split.
    + apply (proj1 (memoized_fresh_cache_contents 10 6 1 ltac:(lia))). lia.
    + apply (proj1 (memoized_fresh_cache_contents 10 6 4 ltac:(lia))). lia.
  - split; [lia|]. split; [lia|].
    apply (proj2 (memoized_fresh_cache_contents 3 9 0 ltac:(lia))). lia.
Defined.

(** X8: on a miss at n >= 2 with both n-1 and n-2 cached,
    [fibonacci_recursive_memoized] returns the sum of the two cached
    values, whatever they are, and adds that sum at key n and nothing
    else. *)
Theorem memoized_sums_cached_predecessors (n a b : Z) (cache : gmap Z Z) :
  2 <= n -> cache !! n = None ->
  cache !! (n - 1) = Some a -> cache !! (n - 2) = Some b ->
  fibonacci_recursive_memoized n (Some cache) =
  (Return (a + b), <[n := a + b]> cache).
Proof.
  intros Hn Hmiss Ha Hb.
  rewrite memoized_step by done.
  rewrite (memoized_hit (n - 1) cache a), (memoized_hit (n - 2) cache b) by (done || lia).
  done.
Qed.

Lemma memoized_sums_cached_predecessors_witness :
  2 <= 9 /\
  fibonacci_recursive_memoized 9 (Some {[8 := 100; 7 := -1]}) =
  (Return (100 + -1), <[9 := 100 + -1]> {[8 := 100; 7 := -1]}).
Proof.
  split; [lia|].
  apply (memoized_sums_cached_predecessors 9 100 (-1) {[8 := 100; 7 := -1]});
    [lia | reflexivity | reflexivity | reflexivity].
Defined.

(** X9: for n < 0, [fibonacci_recursive_memoized] raises [ValueError] and
    leaves the supplied cache as it was, also when the cache has an entry
    at key n: the argument check comes before the lookup. *)
Theorem memoized_negative_keeps_cache (n : Z) (cache : gmap Z Z) :
  n < 0 ->
  fibonacci_recursive_memoized n (Some cache) = (Raise ValueError, cache).
Proof. apply memoized_negative. Qed.

Lemma memoized_negative_keeps_cache_witness :
  -2 < 0 /\
  fibonacci_recursive_memoized (-2) (Some {[-2 := 7]}) =
  (Raise ValueError, {[-2 := 7]}).
Proof. split; [lia | apply (memoized_negative_keeps_cache (-2) {[-2 := 7]}); lia]. Defined.

(** X10: every key that [fibonacci_recursive_memoized] adds to the cache
    in a call with n >= 0 lies between 2 and n. *)
Theorem memoized_adds_keys_2_to_n (n k : Z) (cache : gmap Z Z) :
  0 <= n -> cache !! k = None ->
  is_Some (snd (fibonacci_recursive_memoized n (Some cache)) !! k) ->
  2 <= k <= n.
Proof.
  intros Hn Hk Hk'.
  destruct (memoized_frame n Hn cache) as (v & m' & E & _ & Hnew & _).
  rewrite E in Hk'. by apply Hnew.
Qed.

Lemma memoized_adds_keys_2_to_n_witness :
  0 <= 4 /\ (∅ : gmap Z Z) !! 3 = None /\
  snd (fibonacci_recursive_memoized 4 (Some ∅)) !! 3 = Some 2 /\
  2 <= 3 <= 4.
Proof.
  split; [lia|]. split; [reflexivity|]. split; [vm_compute; reflexivity|].
  apply (memoized_adds_keys_2_to_n 4 3 ∅); [lia | reflexivity |].
  exists 2. vm_compute. reflexivity.
Defined.

(** X11: a call of [fibonacci_recursive_memoized] with n >= 0 adds at most
    n - 1 entries to the cache. *)
Theorem memoized_cache_growth (n : Z) (cache : gmap Z Z) :
  0 <= n ->
  (size (snd (fibonacci_recursive_memoized n (Some cache))) <=
   size cache + Z.to_nat (n - 1))%nat.
Proof.
  intros Hn.
  rewrite <- !(size_dom (D := gset Z)).
  etrans; [apply subseteq_size, memoized_new_keys, Hn|].
  rewrite size_union_alt.
  apply Nat.add_le_mono_l.
  etrans; [apply subseteq_size, subseteq_difference_l; reflexivity|].
  rewrite size_list_to_set by apply NoDup_seqZ.
  rewrite length_range. lia.
Qed.

Lemma memoized_cache_growth_witness :
  0 <= 5 /\
  (size (snd (fibonacci_recursive_memoized 5 (Some {[3%Z := 2%Z]}))) <=
   size ({[3%Z := 2%Z]} : gmap Z Z) + Z.to_nat (5 - 1))%nat.
Proof. split; [lia | apply (memoized_cache_growth 5 {[3 := 2]}); lia]. Defined.

(** X12: whenever a call of [fibonacci_recursive_memoized] returns a
    value, a second call with the same n on the same cache returns that
    value again and changes nothing in the cache. *)
Theorem memoized_idempotent (frames : nat) (n v : Z) (cache cache1 : gmap Z Z) :
  fibonacci_recursive_memoized_within frames n (Some cache) = (Return v, cache1) ->
  fibonacci_recursive_memoized_within frames n (Some cache1) = (Return v, cache1).
Proof.
  intros Hfirst.
  assert (0 <= n) as Hn.
  { destruct (Z_lt_dec n 0) as [Hneg|]; [|lia].
    destruct frames; cbn [fibonacci_recursive_memoized_within] in Hfirst;
      by destruct (Z_lt_dec n 0). }
  assert (fibonacci_recursive_memoized n (Some cache) = (Return v, cache1)) as Hun.
  { destruct (memoized_within_cases frames n (Some cache)) as [E | E].
    - by rewrite <- E.
    - rewrite Hfirst in E. discriminate E. }
  destruct (Z_lt_dec n 2) as [Hsmall|Hbig].
  - rewrite memoized_within_enough by lia.
    destruct (cache !! n) as [w|] eqn:Hw.
    + rewrite (memoized_hit _ _ _ Hn Hw) in Hun. injection Hun as <- <-.
      by apply memoized_hit.
    + rewrite memoized_base in Hun by (done || lia). injection Hun as <- <-.
      apply memoized_base; done || lia.
  - apply memoized_within_hit; [done|].
    destruct (memoized_frame n Hn cache) as (v' & c' & E & _ & _ & Hstored).
    rewrite Hun in E. injection E as <- <-. apply Hstored. lia.
Qed.

Lemma memoized_idempotent_witness :
  fibonacci_recursive_memoized_within 10 6 (Some {[3 := 2]}) =
  (Return 8, snd (fibonacci_recursive_memoized_within 10 6 (Some {[3 := 2]}))) /\
  fibonacci_recursive_memoized_within 10 6
    (Some (snd (fibonacci_recursive_memoized_within 10 6 (Some {[3 := 2]})))) =
  (Return 8, snd (fibonacci_recursive_memoized_within 10 6 (Some {[3 := 2]}))).
Proof.
  split; [vm_compute; reflexivity|].
  apply (memoized_idempotent 10 6 8 {[3 := 2]}). vm_compute. reflexivity.
Defined.

Lemma string_app_assoc (s1 s2 s3 : string) :
  (s1 +:+ s2) +:+ s3 = s1 +:+ (s2 +:+ s3).
Proof.
  induction s1 as [|c s1 IH]; [done|].
  change (String c ((s1 +:+ s2) +:+ s3) = String c (s1 +:+ (s2 +:+ s3))).
  by rewrite IH.
Qed.

Lemma join_snoc sep (l : list string) x :
  l <> [] -> join sep (l ++ [x]) = join sep l +:+ sep +:+ x.
Proof.
  unfold join. induction l as [|a [|b l] IH]; intros Hl; [done|done|].
  change (String.concat sep ((a :: b :: l) ++ [x]))
    with (a +:+ sep +:+ String.concat sep ((b :: l) ++ [x])).
  rewrite IH by done.
  change (String.concat sep (a :: b :: l))
    with (a +:+ sep +:+ String.concat sep (b :: l)).
  by rewrite !string_app_assoc.
Qed.

Lemma first_terms_nonempty n : 0 < n -> first_terms n <> [].
Proof.
  intros Hn Hnil. pose proof (length_first_terms n) as Hlen.
  rewrite Hnil in Hlen. simpl in Hlen. lia.
Qed.

Ltac io_step :=
  unfold mbind, mret, io_bind, io_ret, write, eval, try_except_ValueError.

Lemma str_within_printable d z :
  printable d z = true -> str_within d z = Return (str z).
Proof. intros H. unfold str_within. by rewrite H. Qed.

Lemma strs_within_spec d l :
  strs_within d l =
  if forallb (printable d) l then Return (str <$> l) else Raise ValueError.
Proof.
  induction l as [|z l IH]; [done|].
  cbn [strs_within forallb fmap list_fmap]. unfold str_within.
  destruct (printable d z); [|done]. rewrite IH.
  by destruct (forallb (printable d) l).
Qed.

Lemma io_for_in_print_term d xs pre (l : list Z) k :
  l <> [] ->
  match forallb (printable d) (fib_reference <$> seq k (length xs)) with
  | true =>
      io_for_in xs (print_term_within d) (false, fib_reference k, fib_reference (S k))
        (pre +:+ join " " (str <$> l)) =
      (pre +:+ join " " (str <$> (l ++ (fib_reference <$> seq k (length xs)))),
       Return (false, fib_reference (k + length xs), fib_reference (S (k + length xs))))
  | false =>
      snd (io_for_in xs (print_term_within d)
             (false, fib_reference k, fib_reference (S k))
             (pre +:+ join " " (str <$> l))) = Raise ValueError
  end.
Proof.
  revert l k. induction xs as [|x xs IH]; intros l k Hl.
  - cbn [length seq fmap list_fmap forallb io_for_in]. io_step.
    by rewrite Nat.add_0_r, app_nil_r.
  - cbn [length seq fmap list_fmap forallb io_for_in print_term_within negb].
    io_step. unfold str_within.
    destruct (printable d (fib_reference k)) eqn:Hk; [|done].
    cbn [andb]. rewrite Z.add_comm, <- fib_reference_SS.
    replace (((pre +:+ join " " (str <$> l)) +:+ " ") +:+ str (fib_reference k))
      with (pre +:+ join " " (str <$> (l ++ [fib_reference k]))).
    + specialize (IH (l ++ [fib_reference k]) (S k) ltac:(by destruct l)).
      rewrite <- app_assoc in IH. cbn [app] in IH.
      by replace (S k + length xs)%nat with (k + S (length xs))%nat in IH by lia.
    + rewrite fmap_app. cbn [fmap list_fmap].
      rewrite join_snoc by (by destruct l).
      by rewrite !string_app_assoc.
Qed.

Lemma first_terms_cons n :
  0 < n -> first_terms n = 0 :: (fib_reference <$> seq 1 (Z.to_nat (n - 1))).
Proof.
  intros Hn. unfold first_terms.
  by replace (Z.to_nat n) with (S (Z.to_nat (n - 1))) by lia.
Qed.

Lemma printable_0 d : printable d 0 = true.
Proof.
  destruct d as [|d]; [done|]. apply bool_decide_eq_true.
  change (Z.abs 0) with 0. apply Z.pow_pos_nonneg; lia.
Qed.

Lemma print_loop_within d pre n :
  0 < n ->
  match forallb (printable d) (first_terms n) with
  | true =>
      io_for_in (range 0 n) (print_term_within d) (true, 0, 1) pre =
      (pre +:+ join " " (str <$> first_terms n), Return (false, F n, F (n + 1)))
  | false =>
      snd (io_for_in (range 0 n) (print_term_within d) (true, 0, 1) pre) =
      Raise ValueError
  end.
Proof.
  intros Hn. rewrite first_terms_cons by done.
  cbn [forallb]. rewrite printable_0. cbn [andb].
  unfold range. rewrite Z.sub_0_r, seqZ_cons by lia.
  cbn [io_for_in print_term_within negb]. io_step.
  rewrite str_within_printable by apply printable_0.
  pose proof (io_for_in_print_term d (seqZ (Z.succ 0) (Z.pred n))
                pre [0] 1 ltac:(done)) as H.
  rewrite length_seqZ in H.
  replace (Z.to_nat (Z.pred n)) with (Z.to_nat (n - 1)) in H by lia.
  destruct (forallb (printable d) (fib_reference <$> seq 1 (Z.to_nat (n - 1)))).
  - change (pre +:+ join " " (str <$> [0])) with (pre +:+ str 0) in H.
    change (0 + 1) with 1.
    change (fib_reference 1) with 1 in H. change (fib_reference 2) with 1 in H.
    rewrite H. unfold F.
    replace (Z.to_nat n) with (1 + Z.to_nat (n - 1))%nat by lia.
    by replace (Z.to_nat (n + 1)) with (S (1 + Z.to_nat (n - 1))) by lia.
  - exact H.
Qed.

(** X13: for an input n > 0 that can itself be printed, the script of
    [Fibonnaci.py] prints the header line and then, on one line and
    separated by single spaces, the terms that [fibonacci_iterative n]
    returns, provided every term is within the interpreter's limit on
    integer digits; if a term is not, the script ends with an uncaught
    [ValueError]. *)
Theorem fibonnaci_script_prints_sequence (max_digits : nat) (n : Z) (l : list Z) :
  0 < n -> fibonacci_iterative n = Return l -> printable max_digits n = true ->
  (forallb (printable max_digits) l = true ->
     fibonnaci_script max_digits (Some n) "" =
     ("Fibonacci sequence up to " +:+ str n +:+ " terms:" +:+ newline
      +:+ join " " (str <$> l) +:+ newline, Return tt)) /\
  (forallb (printable max_digits) l = false ->
     snd (fibonnaci_script max_digits (Some n) "") = Raise ValueError).
Proof.
  intros Hn Hl Hpn. rewrite fibonacci_iterative_spec in Hl by lia. injection Hl as <-.
  unfold fibonnaci_script. cbn [int_input]. destruct (Z_le_dec n 0); [lia|].
  io_step. rewrite (str_within_printable _ _ Hpn).
  pose proof (print_loop_within max_digits
    ("" +:+ "Fibonacci sequence up to " +:+ str n +:+ " terms:" +:+ newline) n Hn) as H.
  split; intros Hall; rewrite Hall in H.
  - rewrite H. by rewrite !string_app_assoc.
  - revert H. destruct (io_for_in _ _ _ _) as [out [st|e]]; simpl; intros H;
      [discriminate H | by injection H as ->].
Qed.

Lemma fibonnaci_script_prints_sequence_witness :
  (0 < 4 /\
   fibonnaci_script 4300 (Some 4) "" =
   ("Fibonacci sequence up to " +:+ str 4 +:+ " terms:" +:+ newline
    +:+ join " " (str <$> [0; 1; 1; 2]) +:+ newline, Return tt)) /\
  (0 < 15 /\ snd (fibonnaci_script 2 (Some 15) "") = Raise ValueError).
Proof.
  split.
  - split; [lia|].
    apply (proj1 (fibonnaci_script_prints_sequence 4300 4 [0; 1; 1; 2]
                    ltac:(lia) eq_refl ltac:(vm_compute; reflexivity))).
    vm_compute. reflexivity.
  - split; [lia|].
    apply (proj2 (fibonnaci_script_prints_sequence 2 15
                    [0; 1; 1; 2; 3; 5; 8; 13; 21; 34; 55; 89; 144; 233; 377]
                    ltac:(lia) eq_refl ltac:(vm_compute; reflexivity))).
    vm_compute. reflexivity.
Defined.

(** X14: for every input, the interactive block of
    [Fibonnaci_function.py] ends the way the script of [Fibonnaci.py]
    ends, and when they end normally they have printed the same text. *)
Theorem scripts_end_alike (max_digits : nat) (parsed : option Z) :
  snd (generate_fibonacci_main max_digits parsed "") =
  snd (fibonnaci_script max_digits parsed "") /\
  (snd (fibonnaci_script max_digits parsed "") = Return tt ->
   generate_fibonacci_main max_digits parsed "" =
   fibonnaci_script max_digits parsed "").
Proof.
  destruct parsed as [n|]; [|done].
  unfold generate_fibonacci_main, fibonnaci_script. cbn [int_input].
  io_step. rewrite generate_fibonacci_spec.
  destruct (Z_le_dec n 0) as [Hle|Hgt].
  { unfold first_terms. by replace (Z.to_nat n) with 0%nat by lia. }
  destruct (first_terms n) as [|t ts] eqn:Hts.
  { by apply first_terms_nonempty in Hts; [|lia]. }
  rewrite <- Hts. unfold str_within.
  destruct (printable max_digits n); [|split; [reflexivity | intros _; reflexivity]].
  rewrite strs_within_spec.
  pose proof (print_loop_within max_digits
    ("" +:+ "Fibonacci sequence up to " +:+ str n +:+ " terms:" +:+ newline)
    n ltac:(lia)) as H.
  destruct (forallb (printable max_digits) (first_terms n)).
  - rewrite H. by rewrite !string_app_assoc.
  - revert H. destruct (io_for_in _ _ _ _) as [out [st|e]]; simpl; intros H;
      [discriminate H|].
    injection H as ->. split; [done | discriminate].
Qed.

Lemma scripts_end_alike_witness :
  snd (fibonnaci_script 4300 (Some 6) "") = Return tt /\
  generate_fibonacci_main 4300 (Some 6) "" = fibonnaci_script 4300 (Some 6) "".
Proof.
  split; [vm_compute; reflexivity|].
  apply (proj2 (scripts_end_alike 4300 (Some 6))). vm_compute. reflexivity.
Defined.

(** X15: for an integer input n >= 0 the interactive block of
    [fibonacci_iterative.py] prints the list that [fibonacci_iterative n]
    returns when every term is within the interpreter's limit on integer
    digits; otherwise the [ValueError] of the conversion is caught by the
    handler around the call and the block prints the malformed-input
    message, although the input was an integer. *)
Theorem iterative_interactive_output (max_digits : nat) (n : Z) (l : list Z) :
  0 <= n -> fibonacci_iterative n = Return l ->
  iterative_interactive max_digits (Some n) "" =
  (if forallb (printable max_digits) l
   then "Fibonacci sequence: " +:+ str_list l +:+ newline
   else "Please enter a valid integer." +:+ newline,
   Return tt).
Proof.
  intros Hn Hl. unfold iterative_interactive. cbn [int_input]. io_step.
  destruct (Z_lt_dec n 0); [lia|]. rewrite Hl.
  unfold str_list_within. rewrite strs_within_spec.
  by destruct (forallb (printable max_digits) l).
Qed.

Lemma iterative_interactive_output_witness :
  (0 <= 5 /\
   iterative_interactive 4300 (Some 5) "" =
   ("Fibonacci sequence: " +:+ str_list [0; 1; 1; 2; 3] +:+ newline, Return tt)) /\
  (0 <= 13 /\
   iterative_interactive 2 (Some 13) "" =
   ("Please enter a valid integer." +:+ newline, Return tt)).
Proof.
  split.
  - split; [lia|].
    apply (iterative_interactive_output 4300 5 [0; 1; 1; 2; 3]); [lia | reflexivity].
  - split; [lia|].
    apply (iterative_interactive_output 2 13
             [0; 1; 1; 2; 3; 5; 8; 13; 21; 34; 55; 89; 144]); [lia | reflexivity].
Defined.

(** X16: for an input n >= 0 whose recursion fits the recursion limit
    and whose value and result can be printed, the interactive block of
    [fibonacci_recursive.py] prints, for n <= 35, the naive and the
    memoized result, which are the same number, and for n > 35 the
    warning and the memoized result; the number is the value of
    [get_nth_fibonacci_iterative n].  When the recursion does not fit,
    the block ends with an uncaught [RecursionError], after the warning
    line for n > 35 and before any output otherwise. *)
Theorem recursive_interactive_output (frames max_digits : nat) (n v : Z) :
  0 <= n -> get_nth_fibonacci_iterative n = Return v ->
  (n - 1 <= Z.of_nat frames ->
   printable max_digits n = true -> printable max_digits v = true ->
     recursive_interactive_within frames max_digits (Some n) "" =
     (if Z_gt_dec n 35
      then "⚠️  For n > 35, using memoization to avoid slowness..." +:+ newline
           +:+ "fibonacci_recursive_memoized(" +:+ str n +:+ ") = " +:+ str v +:+ newline
      else "fibonacci_recursive_basic(" +:+ str n +:+ ") = " +:+ str v +:+ newline
           +:+ "fibonacci_recursive_memoized(" +:+ str n +:+ ") = " +:+ str v +:+ newline,
      Return tt)) /\
  (Z.of_nat frames < n - 1 ->
     recursive_interactive_within frames max_digits (Some n) "" =
     (if Z_gt_dec n 35
      then "⚠️  For n > 35, using memoization to avoid slowness..." +:+ newline
      else "",
      Raise RecursionError)).
Proof.
  intros Hn Hv. rewrite get_nth_fibonacci_iterative_spec in Hv by done.
  injection Hv as <-.
  unfold recursive_interactive_within. cbn [int_input]. io_step.
  destruct (Z_lt_dec n 0); [lia|]. split.
  - intros Hfit Hpn Hpv.
    rewrite basic_within_enough, memoized_within_enough by done.
    rewrite fibonacci_recursive_basic_spec, fibonacci_recursive_memoized_spec by auto.
    rewrite !(str_within_printable _ _ Hpn), !(str_within_printable _ _ Hpv).
    destruct (Z_gt_dec n 35); cbv beta iota; by rewrite ?string_app_assoc.
  - intros Hdeep.
    rewrite basic_within_overflow, memoized_within_default,
      memoized_within_overflow by done.
    by destruct (Z_gt_dec n 35).
Qed.

Lemma recursive_interactive_output_witness :
  (0 <= 10 /\ 10 - 1 <= Z.of_nat 1000 /\
   recursive_interactive_within 1000 4300 (Some 10) "" =
   ("fibonacci_recursive_basic(" +:+ str 10 +:+ ") = " +:+ str 55 +:+ newline
    +:+ "fibonacci_recursive_memoized(" +:+ str 10 +:+ ") = " +:+ str 55 +:+ newline,
    Return tt)) /\
  (0 <= 50 /\ Z.of_nat 20 < 50 - 1 /\
   recursive_interactive_within 20 4300 (Some 50) "" =
   ("⚠️  For n > 35, using memoization to avoid slowness..." +:+ newline,
    Raise RecursionError)).
Proof.
  split.
  - split; [lia|]. split; [lia|].
    apply (proj1 (recursive_interactive_output 1000 4300 10 55 ltac:(lia) eq_refl));
      [lia | vm_compute; reflexivity | vm_compute; reflexivity].
  - split; [lia|]. split; [lia|].
    apply (proj2 (recursive_interactive_output 20 4300 50 12586269025
                    ltac:(lia) eq_refl)). lia.
Defined.

(** X17: what the interactive block of [fibonacci_recursive.py] prints is
    the malformed-input message if and only if the input is not an
    integer. *)
Theorem recursive_interactive_handler (parsed : option Z) :
  recursive_interactive parsed = Return ("Please enter a valid integer." +:+ newline)
  <-> parsed = None.
Proof.
  split; [|by intros ->].
  destruct parsed as [n|]; [|done]. unfold recursive_interactive.
  destruct (Z_lt_dec n 0); [discriminate|].
  rewrite fibonacci_recursive_basic_spec, fibonacci_recursive_memoized_spec by (auto; lia).
  destruct (Z_gt_dec n 35); discriminate.
Qed.

Lemma recursive_interactive_handler_witness :
  recursive_interactive None = Return ("Please enter a valid integer." +:+ newline) /\
  recursive_interactive (Some 40) <> Return ("Please enter a valid integer." +:+ newline).
Proof.
  split.
  - apply (proj2 (recursive_interactive_handler None)). reflexivity.
  - intros H. apply (proj1 (recursive_interactive_handler (Some 40))) in H.
    discriminate H.
Defined.

Lemma printable_small d z :
  d = 0%nat \/ (640 <= d)%nat -> 0 <= z < 10 ^ 7 -> printable d z = true.
Proof.
  intros Hd Hz. destruct d as [|d]; [done|]. destruct Hd as [|Hd]; [done|].
  apply bool_decide_eq_true. rewrite Z.abs_eq by lia.
  eapply Z.lt_le_trans; [apply Hz|]. apply Z.pow_le_mono_r; lia.
Qed.

Lemma Return_inj {A : Type} (x y : A) : Return x = Return y -> x = y.
Proof. by intros [= ->]. Qed.

Lemma F_35 : F 35 = 9227465.
Proof.
  assert (get_nth_fibonacci_iterative 35 = Return 9227465) as E
    by (vm_compute; reflexivity).
  apply Return_inj. rewrite <- E. symmetry.
  apply get_nth_fibonacci_iterative_spec. lia.
Qed.

Lemma F_le_35 n : 0 <= n <= 35 -> 0 <= F n <= 9227465.
Proof.
  intros Hn. rewrite <- F_35. unfold F. split; [apply fib_reference_nonneg|].
  apply fib_reference_mono. lia.
Qed.

(** X19: under the recursion limit and a limit on integer digits that
    the interpreter accepts (switched off, or at least 640), what the
    interactive block of [fibonacci_recursive.py] has printed when it
    ends normally is the malformed-input message if and only if the input
    is not an integer. *)
Theorem recursive_interactive_within_handler (frames max_digits : nat)
    (parsed : option Z) :
  max_digits = 0%nat \/ (640 <= max_digits)%nat ->
  recursive_interactive_within frames max_digits parsed "" =
  ("Please enter a valid integer." +:+ newline, Return tt)
  <-> parsed = None.
Proof.
  intros Hd. split; [|by intros ->].
  destruct parsed as [n|]; [|done].
  unfold recursive_interactive_within. cbn [int_input]. io_step.
  destruct (Z_lt_dec n 0); [discriminate|].
  destruct (Z_gt_dec n 35) as [Hbig|Hsmall].
  - destruct (fst (fibonacci_recursive_memoized_within frames n None)) as [x|[| |]];
      unfold str_within;
      repeat (match goal with |- context [printable ?d ?z] =>
                destruct (printable d z) end);
      discriminate.
  - destruct (Z_le_dec (n - 1) (Z.of_nat frames)) as [Hfit|Hdeep].
    + rewrite basic_within_enough, memoized_within_enough by done.
      rewrite fibonacci_recursive_basic_spec, fibonacci_recursive_memoized_spec
        by (auto; lia).
      pose proof (F_le_35 n ltac:(lia)) as HF.
      rewrite !(str_within_printable _ n), !(str_within_printable _ (F n))
        by (apply printable_small; [done | change (10 ^ 7) with 10000000; lia]).
      discriminate.
    + rewrite basic_within_overflow by lia. discriminate.
Qed.

Lemma recursive_interactive_within_handler_witness :
  ((4300 = 0)%nat \/ (640 <= 4300)%nat) /\
  recursive_interactive_within 1000 4300 None "" =
  ("Please enter a valid integer." +:+ newline, Return tt) /\
  recursive_interactive_within 1000 4300 (Some 12) "" <>
  ("Please enter a valid integer." +:+ newline, Return tt).
Proof.
  assert (4300 = 0 \/ 640 <= 4300)%nat as Hd by (right; lia).
  split; [exact Hd|]. split.
  - apply (proj2 (recursive_interactive_within_handler 1000 4300 None Hd)). reflexivity.
  - intros H. apply (proj1 (recursive_interactive_within_handler 1000 4300 (Some 12) Hd)) in H.
    discriminate H.
Defined.

Lemma print_tree_body n depth :
  print_tree n depth =
  let indent := repeat_str "  " depth in
  if Z.eq_dec n 0 then [indent +:+ "fib(" +:+ str n +:+ ") = 0 [BASE CASE]"]
  else if Z.eq_dec n 1 then [indent +:+ "fib(" +:+ str n +:+ ") = 1 [BASE CASE]"]
  else
    [indent +:+ "fib(" +:+ str n +:+ ")";
     indent +:+ "├─ fib(" +:+ str (n - 1) +:+ ")";
     indent +:+ "└─ fib(" +:+ str (n - 2) +:+ ")"]
    ++ (if Z_lt_dec depth 3
        then print_tree (n - 1) (depth + 1) ++ print_tree (n - 2) (depth + 1)
        else []).
Proof.
  rewrite print_tree_equation_1.
  unfold print_tree_unfold_clause_1.
  destruct (Z.eq_dec n 0); simpl; [reflexivity|].
  destruct (Z.eq_dec n 1); simpl; [reflexivity|].
  destruct (Z_lt_dec depth 3); simpl; reflexivity.
Qed.

Lemma print_tree_length_step n depth :
  (length (print_tree n depth) <=
   3 + (if Z_lt_dec depth 3
        then length (print_tree (n - 1) (depth + 1)) +
             length (print_tree (n - 2) (depth + 1))
        else 0))%nat.
Proof.
  rewrite (print_tree_body n depth). cbv zeta.
  destruct (Z.eq_dec n 0); [simpl; lia|].
  destruct (Z.eq_dec n 1); [simpl; lia|].
  rewrite length_app. cbn [length].
  destruct (Z_lt_dec depth 3); [rewrite length_app|simpl]; lia.
Qed.

Lemma print_tree_length_bound (k : nat) n depth :
  3 - Z.of_nat k <= depth ->
  (length (print_tree n depth) <= 3 * (2 ^ S k - 1))%nat.
Proof.
  revert n depth. induction k as [|k IH]; intros n depth Hd.
  - pose proof (print_tree_length_step n depth) as H.
    destruct (Z_lt_dec depth 3); [lia|]. simpl. lia.
  - pose proof (print_tree_length_step n depth) as H.
    destruct (Z_lt_dec depth 3).
    + pose proof (IH (n - 1) (depth + 1) ltac:(lia)).
      pose proof (IH (n - 2) (depth + 1) ltac:(lia)).
      assert (1 <= 2 ^ S k)%nat by (apply Nat.pow_lower_bound; lia).
      change (2 ^ S (S k))%nat with (2 * 2 ^ S k)%nat. lia.
    + assert (1 <= 2 ^ S k)%nat by (apply Nat.pow_lower_bound; lia).
      change (2 ^ S (S k))%nat with (2 * 2 ^ S k)%nat. lia.
Qed.

(** X18: [print_tree], called at a depth >= 0, writes at most 45 lines for
    every n, also for a negative n, where no base case is ever reached
    and only the depth limit ends the recursion. *)
Theorem print_tree_at_most_45_lines (n depth : Z) :
  0 <= depth -> (length (print_tree n depth) <= 45)%nat.
Proof. intros Hd. apply (print_tree_length_bound 3 n depth). lia. Qed.

Lemma print_tree_at_most_45_lines_witness :
  0 <= 0 /\ (length (print_tree (-7) 0) <= 45)%nat.
Proof. split; [lia | apply (print_tree_at_most_45_lines (-7) 0); lia]. Defined.
